(** * Construe: header extraction, criteria matching, vault scanning and
      aggregation of an Obsidian vault

    A shallow embedding of [obsidian_utils.py] and of the [fetch_context]
    operation of [mcp-construe.py], together with the properties the
    specification states about them. *)

From Stdlib Require Import String Ascii List ZArith NArith Bool Lia Arith.
From Stdlib Require Import Sorting.Sorted Sorting.Permutation.
From Stdlib Require Import DecimalString.
Import ListNotations.

Local Open Scope string_scope.
Local Open Scope list_scope.
Set Implicit Arguments.
Set Warnings "-register-all".

(** ** Python strings

    A Python [str] is a sequence of Unicode code points. *)

Definition char := N.
Definition str := list char.

Definition u (s : string) : str := map N_of_ascii (list_ascii_of_string s).

Definition nl : char := 10%N.

Fixpoint str_eqb (s t : str) : bool :=
  match s, t with
  | [], [] => true
  | a :: s', b :: t' => N.eqb a b && str_eqb s' t'
  | _, _ => false
  end.

(** [sep.join(parts)] *)
Fixpoint join (sep : str) (parts : list str) : str :=
  match parts with
  | [] => []
  | [p] => p
  | p :: rest => p ++ sep ++ join sep rest
  end.

(** [s.startswith(p)] *)
Fixpoint startswith (p s : str) : bool :=
  match p, s with
  | [], _ => true
  | a :: p', b :: s' => N.eqb a b && startswith p' s'
  | _ :: _, [] => false
  end.

(** The text of a document given line by line, lines joined by newlines. *)
Definition doc (lines : list string) : str := join [nl] (map u lines).

(** ** Exceptions and fallible computations *)

Inductive exn_class :=
| YAMLError | IOError | FileNotFoundError | PermissionError
| UnicodeDecodeError | AttributeError | KeyError | TypeError | OtherError.

Record exn := mk_exn { exn_kind : exn_class; exn_msg : str }.

(** [isinstance(e, yaml.YAMLError)] *)
Definition is_YAMLError (e : exn) : bool :=
  match exn_kind e with YAMLError => true | _ => false end.

(** [isinstance(e, (IOError, UnicodeDecodeError))]; [IOError] is [OSError],
    the base class of [FileNotFoundError] and [PermissionError]. *)
Definition is_read_error (e : exn) : bool :=
  match exn_kind e with
  | IOError | FileNotFoundError | PermissionError | UnicodeDecodeError => true
  | _ => false
  end.

Inductive outcome (A : Type) : Type :=
| Ret (a : A)
| Raise (e : exn).
Arguments Ret {A} a.
Arguments Raise {A} e.

Definition bind {A B} (m : outcome A) (f : A -> outcome B) : outcome B :=
  match m with
  | Ret a => f a
  | Raise e => Raise e
  end.

Notation "x <- m ;; k" := (bind m (fun x => k))
  (at level 61, m at next level, right associativity).

(** ** Python values

    The values a YAML header or a JSON filter can hold: null, booleans,
    integers, strings, lists and string-keyed mappings.  A mapping keeps its
    items in insertion order; its keys are pairwise distinct.  Floats and
    timestamps are outside the model. *)

Inductive value :=
| VNone
| VBool (b : bool)
| VInt (z : Z)
| VStr (s : str)
| VList (l : list value)
| VDict (d : list (str * value)).

Definition dict := list (str * value).

Fixpoint dict_lookup (key : str) (d : dict) : option value :=
  match d with
  | [] => None
  | (k, v) :: d' => if str_eqb key k then Some v else dict_lookup key d'
  end.

(** Python's [==].  A bool is an int ([True == 1]); a string equals only a
    string; lists compare element by element and mappings item by item,
    whatever the insertion order. *)
Fixpoint py_eq (a b : value) {struct a} : bool :=
  match a, b with
  | VNone, VNone => true
  | VBool x, VBool y => Bool.eqb x y
  | VBool x, VInt y => Z.eqb (Z.b2z x) y
  | VInt x, VBool y => Z.eqb x (Z.b2z y)
  | VInt x, VInt y => Z.eqb x y
  | VStr s, VStr t => str_eqb s t
  | VList l, VList m =>
      (fix all2 (l : list value) (m : list value) : bool :=
         match l, m with
         | [], [] => true
         | x :: l', y :: m' => py_eq x y && all2 l' m'
         | _, _ => false
         end) l m
  | VDict d, VDict e =>
      Nat.eqb (length d) (length e) &&
      (fix items (d : list (str * value)) : bool :=
         match d with
         | [] => true
         | (k, v) :: d' =>
             match dict_lookup k e with
             | Some w => py_eq v w
             | None => false
             end && items d'
         end) d
  | _, _ => false
  end.

(** [a != b] *)
Definition py_ne (a b : value) : bool := negb (py_eq a b).

(** [x in xs] for a list [xs] *)
Definition py_in (x : value) (xs : list value) : bool :=
  existsb (fun y => py_eq y x) xs.

(** Truth value of an object, as [or] tests it. *)
Definition truthy (v : value) : bool :=
  match v with
  | VNone => false
  | VBool b => b
  | VInt z => negb (Z.eqb z 0)
  | VStr s => negb (Nat.eqb (length s) 0)
  | VList l => negb (Nat.eqb (length l) 0)
  | VDict d => negb (Nat.eqb (length d) 0)
  end.

Definition is_mapping (v : value) : bool :=
  match v with VDict _ => true | _ => false end.

(** ** Regular expressions

    The fragment of Python's [re] that [extract_frontmatter] uses, with the
    backtracking order of the library: a greedy repetition tries the longest
    run first, a lazy one the shortest. *)

Inductive cls :=
| Any                (* [.] under [re.DOTALL] *)
| Space              (* [\s] *)
| Lit (c : char).

(** The code points [\s] matches in a [str] pattern. *)
Definition is_space (c : char) : bool :=
  ((9 <=? c) && (c <=? 13) || (28 <=? c) && (c <=? 32) ||
   (c =? 133) || (c =? 160) || (c =? 5760) ||
   (8192 <=? c) && (c <=? 8202) ||
   (c =? 8232) || (c =? 8233) || (c =? 8239) || (c =? 8287) ||
   (c =? 12288))%N.

Definition cls_mem (k : cls) (c : char) : bool :=
  match k with
  | Any => true
  | Space => is_space c
  | Lit a => N.eqb a c
  end.

Inductive re :=
| Nil
| Bos                              (* [^] *)
| One (k : cls)
| Many (k : cls) (greedy : bool)   (* [k*] and [k*?] *)
| Grp (r : re)                     (* the capturing group, group 1 *)
| Seq (r1 r2 : re).

Fixpoint lit (s : str) : re :=
  match s with
  | [] => Nil
  | c :: s' => Seq (One (Lit c)) (lit s')
  end.

Fixpoint seq (rs : list re) : re :=
  match rs with
  | [] => Nil
  | r :: rs' => Seq r (seq rs')
  end.

(** A match object: [m.end()] and [m.span(1)]. *)
Record match_obj := mk_match { m_end : nat; m_span1 : option (nat * nat) }.

Section Matcher.
Variable R : Type.

(** The rest of the pattern: it receives the text still to be read, the
    position reached and the span of group 1. *)
Definition cont := str -> nat -> option (nat * nat) -> option R.

Fixpoint many (k : cls) (greedy : bool) (s : str) (i : nat)
    (c : option (nat * nat)) (kont : cont) {struct s} : option R :=
  match s with
  | [] => kont [] i c
  | a :: s' =>
      if cls_mem k a then
        if greedy then
          match many k greedy s' (S i) c kont with
          | Some x => Some x
          | None => kont s i c
          end
        else
          match kont s i c with
          | Some x => Some x
          | None => many k greedy s' (S i) c kont
          end
      else kont s i c
  end.

Fixpoint run (r : re) (s : str) (i : nat) (c : option (nat * nat))
    (kont : cont) {struct r} : option R :=
  match r with
  | Nil => kont s i c
  | Bos => if Nat.eqb i 0 then kont s i c else None
  | One k =>
      match s with
      | a :: s' => if cls_mem k a then kont s' (S i) c else None
      | [] => None
      end
  | Many k greedy => many k greedy s i c kont
  | Grp r1 => run r1 s i c (fun s' j _ => kont s' j (Some (i, j)))
  | Seq r1 r2 => run r1 s i c (fun s' j c' => run r2 s' j c' kont)
  end.
End Matcher.

(** [re.match(pattern, string, re.DOTALL)] *)
Definition re_match (pattern : re) (s : str) : option match_obj :=
  run pattern s 0 None (fun _ j c => Some (mk_match j c)).

(** [string[a:b]] *)
Definition slice (s : str) (a b : nat) : str := firstn (b - a) (skipn a s).

(** [m.group(1)] *)
Definition group1 (m : match_obj) (s : str) : str :=
  match m_span1 m with
  | Some (a, b) => slice s a b
  | None => []
  end.

(** ** Header Extractor *)

(** [r'^---\s*\n(.*?)\n---\s*\n'] *)
Definition pattern : re :=
  seq [Bos; lit (u "---"); Many Space true; One (Lit nl);
       Grp (Many Any false);
       One (Lit nl); lit (u "---"); Many Space true; One (Lit nl)].

(** The header region of a text: the text of group 1 and the text after the
    match, when the pattern matches. *)
Definition header_region (content : str) : option (str * str) :=
  match re_match pattern content with
  | None => None
  | Some m => Some (group1 m content, skipn (m_end m) content)
  end.

Definition extract_frontmatter (safe_load : str -> outcome value)
    (content : str) : outcome (value * str) :=
  match re_match pattern content with
  | None => Ret (VDict [], content)
  | Some m =>
      let frontmatter_text := group1 m content in
      let remaining_content := skipn (m_end m) content in
      match safe_load frontmatter_text with
      | Ret loaded =>
          let frontmatter := if truthy loaded then loaded else VDict [] in
          Ret (frontmatter, remaining_content)
      | Raise e =>
          if is_YAMLError e then Ret (VDict [], content) else Raise e
      end
  end.

(** ** Criteria Matcher *)

(** [obj.get(key, default)]; only a mapping has the method. *)
Definition get (obj : value) (key : str) (default : value) : outcome value :=
  match obj with
  | VDict d =>
      Ret (match dict_lookup key d with Some v => v | None => default end)
  | _ => Raise (mk_exn AttributeError (u "object has no attribute 'get'"))
  end.

(** The loop over [properties.items()]: [Ret false] when it returns [False],
    [Ret true] when it runs to its end. *)
Fixpoint properties_loop (frontmatter : value) (items : dict)
    : outcome bool :=
  match items with
  | [] => Ret true
  | (key, value) :: rest =>
      found <- get frontmatter key VNone ;;
      if py_ne found value then Ret false
      else properties_loop frontmatter rest
  end.

(** The tag entry as the list the membership tests run on. *)
Definition normalize_tags (file_tags : value) : list value :=
  match file_tags with
  | VStr s => [VStr s]
  | VList l => l
  | _ => []
  end.

Definition matches_criteria (frontmatter : value) (properties : dict)
    (tags : list str) (match_all_tags : bool) : outcome bool :=
  passed <- properties_loop frontmatter properties ;;
  if negb passed then Ret false
  else
    match tags with
    | [] => Ret true
    | _ :: _ =>
        file_tags <- get frontmatter (u "tags") (VList []) ;;
        let file_tags := normalize_tags file_tags in
        if match_all_tags
        then Ret (forallb (fun tag => py_in (VStr tag) file_tags) tags)
        else Ret (existsb (fun tag => py_in (VStr tag) file_tags) tags)
    end.

(** ** Vault Scanner *)

Definition path := str.

(** The file system and the libraries a call runs against. *)
Record world := mk_world {
  safe_load : str -> outcome value;      (* [yaml.safe_load] *)
  exists_ : path -> outcome bool;        (* [p.exists()] *)
  is_dir : path -> outcome bool;         (* [p.is_dir()] *)
  is_file : path -> outcome bool;        (* [p.is_file()] *)
  rglob_md : path -> list path;          (* [p.rglob("*.md")], in order *)
  read_text : path -> outcome str;       (* [open(p, 'r', encoding='utf-8')] and [f.read()] *)
  st_mtime : path -> Z;                  (* [p.stat().st_mtime] *)
  resolve : path -> path;                (* [p.resolve()] *)
  expanduser : path -> path;             (* [p.expanduser()] *)
  script_dir : path                      (* [Path(__file__).parent] *)
}.

(** [list.sort(key=...)] is stable: an element is placed before the first
    element whose key is not smaller. *)
Section Sort.
Variables (A : Type) (key : A -> Z).

Fixpoint insert_by (x : A) (l : list A) : list A :=
  match l with
  | [] => [x]
  | y :: l' => if (key x <=? key y)%Z then x :: l else y :: insert_by x l'
  end.

Fixpoint sort_by (l : list A) : list A :=
  match l with
  | [] => []
  | x :: l' => insert_by x (sort_by l')
  end.
End Sort.

Definition warning (md_file : path) (e : exn) : str :=
  u "Warning: Could not read " ++ md_file ++ u ": " ++ exn_msg e.

(** The body of the [try] for one file: the pair to append, if any. *)
Definition scan_file (w : world) (properties : dict) (tags : list str)
    (match_all_tags : bool) (md_file : path) : outcome (option (path * str)) :=
  content <- read_text w md_file ;;
  fm <- extract_frontmatter (safe_load w) content ;;
  ok <- matches_criteria (fst fm) properties tags match_all_tags ;;
  Ret (if ok then Some (md_file, content) else None).

(** The loop over the enumerated files, with the list built so far and the
    warnings printed so far.  The test [md_file.is_file()] stands before the
    [try]: what it raises leaves the loop. *)
Fixpoint scan_loop (w : world) (properties : dict) (tags : list str)
    (match_all_tags : bool) (files : list path)
    (matching_files : list (path * str)) (printed : list str)
    : list str * outcome (list (path * str)) :=
  match files with
  | [] => (printed, Ret matching_files)
  | md_file :: rest =>
      match is_file w md_file with
      | Raise e => (printed, Raise e)
      | Ret false =>
          scan_loop w properties tags match_all_tags rest matching_files printed
      | Ret true =>
        match scan_file w properties tags match_all_tags md_file with
        | Ret (Some hit) =>
            scan_loop w properties tags match_all_tags rest
              (matching_files ++ [hit]) printed
        | Ret None =>
            scan_loop w properties tags match_all_tags rest matching_files printed
        | Raise e =>
            if is_read_error e
            then scan_loop w properties tags match_all_tags rest matching_files
                   (printed ++ [warning md_file e])
            else (printed, Raise e)
        end
      end
  end.

(** The printed warnings and the result. *)
Definition find_matching_files (w : world) (vault_path : path)
    (properties : dict) (tags : list str) (match_all_tags : bool)
    : list str * outcome (list (path * str)) :=
  let (printed, r) :=
    scan_loop w properties tags match_all_tags (rglob_md w vault_path) [] [] in
  (printed,
   matching_files <- r ;;
   Ret (sort_by (fun x => st_mtime w (fst x)) matching_files)).

(** ** Aggregator *)

Definition separator : str := repeat 61%N 80.      (* ["=" * 80] *)
Arguments separator : simpl never.

Definition no_match : str := u "No matching files found.".

Definition concatenate_files (w : world) (files : list (path * str)) : str :=
  match files with
  | [] => no_match
  | _ :: _ =>
      let result_parts :=
        fold_left
          (fun result_parts f =>
             let '(file_path, content) := f in
             result_parts ++ [separator] ++ [resolve w file_path]
               ++ [separator] ++ [content] ++ [[]])
          files [] in
      join [nl] result_parts
  end.

(** ** Vault Info Query *)

Inductive vault_info :=
| InfoError (message : str)
| Info (vault_path : path) (exists_flag is_directory : bool)
       (markdown_files_count : nat).

Definition get_vault_info (w : world) (vault_path : path)
    : outcome vault_info :=
  found <- exists_ w vault_path ;;
  if negb found
  then Ret (InfoError (u "Vault path does not exist"))
  else
    let md_files := rglob_md w vault_path in
    exists_flag <- exists_ w vault_path ;;
    is_directory <- is_dir w vault_path ;;
    Ret (Info vault_path exists_flag is_directory (length md_files)).

(** ** Configuration Loader and Entry Surface *)

(** [obsidian_utils.load_config(config_path)] with a path given. *)
Definition utils_load_config (w : world) (config_path : path) : outcome value :=
  found <- exists_ w config_path ;;
  if negb found
  then Raise (mk_exn FileNotFoundError
                (u "Configuration file not found: " ++ config_path))
  else
    text <- read_text w config_path ;;
    match safe_load w text with
    | Ret config => Ret config
    | Raise e =>
        if is_YAMLError e
        then Raise (mk_exn YAMLError (u "Error parsing config.yaml: " ++ exn_msg e))
        else Raise e
    end.

(** The module globals [_config] and [_config_path]. *)
Record globals := mk_globals { _config : value; _config_path : option path }.

(** [load_config()] of the server: the result and the globals afterwards. *)
Definition load_config (w : world) (g : globals) : outcome value * globals :=
  if negb (py_eq (_config g) VNone) then (Ret (_config g), g)
  else
    let config_path :=
      match _config_path g with
      | Some p => p
      | None => script_dir w ++ u "/config.yaml"
      end in
    match utils_load_config w config_path with
    | Ret config => (Ret config, mk_globals config (Some config_path))
    | Raise e => (Raise e, mk_globals (_config g) (Some config_path))
    end.

(** [obj[key]] for a string key. *)
Definition getitem (obj : value) (key : str) : outcome value :=
  match obj with
  | VDict d =>
      match dict_lookup key d with
      | Some v => Ret v
      | None => Raise (mk_exn KeyError (u "'" ++ key ++ u "'"))
      end
  | _ => Raise (mk_exn TypeError (u "object is not subscriptable by a string"))
  end.

(** [Path(v)] *)
Definition Path (v : value) : outcome path :=
  match v with
  | VStr s => Ret s
  | _ => Raise (mk_exn TypeError (u "expected str, bytes or os.PathLike object"))
  end.

(** The body of the [try] of [fetch_context], after the configuration is
    loaded. *)
Definition fetch_context_body (w : world) (config : value)
    (context_type : str) : outcome str :=
  raw <- getitem config (u "vault_path") ;;
  p <- Path raw ;;
  let vault_path := resolve w (expanduser w p) in
  found <- exists_ w vault_path ;;
  if negb found
  then Ret (u "Error: Vault path does not exist: " ++ vault_path)
  else
  directory <- is_dir w vault_path ;;
  if negb directory
  then Ret (u "Error: Vault path is not a directory: " ++ vault_path)
  else
    let properties := [(u "context", VStr context_type)] in
    let tags := [] in
    matching_files <- snd (find_matching_files w vault_path properties tags false) ;;
    Ret (concatenate_files w matching_files).

(** The returned string and the globals afterwards. *)
Definition fetch_context (w : world) (g : globals) (context_type : str)
    : str * globals :=
  let (loaded, g') := load_config w g in
  let r := config <- loaded ;; fetch_context_body w config context_type in
  match r with
  | Ret text => (text, g')
  | Raise e =>
      (u "Error fetching " ++ context_type ++ u " context: " ++ exn_msg e, g')
  end.

(** ** The specification's reading of the operations

    Definitions that follow the words of the specification, to be compared
    with the definitions above. *)

Fixpoint strip_prefix (p s : str) : option str :=
  match p, s with
  | [], _ => Some s
  | a :: p', b :: s' => if N.eqb a b then strip_prefix p' s' else None
  | _ :: _, [] => None
  end.

(** The lines before the first line that is exactly three hyphens and ends
    in a newline, and the text after that line. *)
Fixpoint first_closing_line (s : str) (before : list str) (line : str)
    : option (list str * str) :=
  match s with
  | [] => None
  | c :: s' =>
      if N.eqb c nl then
        if str_eqb line (u "---") then Some (before, s')
        else first_closing_line s' (before ++ [line]) []
      else first_closing_line s' before (line ++ [c])
  end.

(** The header region as the specification words it: the text begins with a
    line of exactly three hyphens, and the first later line that is exactly
    three hyphens followed by a newline closes the header. *)
Definition spec_header_region (content : str) : option (str * str) :=
  match strip_prefix (u "---" ++ [nl]) content with
  | None => None
  | Some rest =>
      match first_closing_line rest [] [] with
      | None => None
      | Some (before, after) => Some (join [nl] before, after)
      end
  end.

(** The Header Extractor as the specification words it. *)
Definition spec_extract_frontmatter (load : str -> outcome value)
    (content : str) : value * str :=
  match spec_header_region content with
  | None => (VDict [], content)
  | Some (interior, after) =>
      match load interior with
      | Raise _ => (VDict [], content)
      | Ret parsed => (if truthy parsed then parsed else VDict [], after)
      end
  end.

(** The property stage as the specification words it: every key of the
    filter is present in the metadata with an equal value. *)
Definition spec_property_stage (metadata properties : dict) : bool :=
  forallb
    (fun kv =>
       match dict_lookup (fst kv) metadata with
       | Some found => py_eq found (snd kv)
       | None => false
       end)
    properties.

(** The tag entry as the specification normalizes it: a single string is a
    one-element sequence, a sequence is used as it is, and anything else,
    a missing entry included, is the empty sequence. *)
Definition spec_tag_sequence (entry : option value) : list value :=
  match entry with
  | Some (VStr s) => [VStr s]
  | Some (VList l) => l
  | _ => []
  end.

(** [d[key] = v] *)
Fixpoint dict_set (key : str) (v : value) (d : dict) : dict :=
  match d with
  | [] => [(key, v)]
  | (k, x) :: d' =>
      if str_eqb key k then (k, v) :: d' else (k, x) :: dict_set key v d'
  end.

(** What [frontmatter.get(key)] reads: a missing key reads as null. *)
Definition lookup_or_none (metadata : dict) (key : str) : value :=
  match dict_lookup key metadata with Some v => v | None => VNone end.

(** One section of the aggregate output, as a list of lines. *)
Definition section_parts (w : world) (f : path * str) : list str :=
  [separator; resolve w (fst f); separator; snd f; []].

(** The Aggregator as the specification words it. *)
Definition spec_aggregate (w : world) (files : list (path * str)) : str :=
  match files with
  | [] => no_match
  | _ :: _ => join [nl] (flat_map (section_parts w) files)
  end.

(** A string of the form ["Error: ..."]. *)
Definition is_error_string (s : str) : bool := startswith (u "Error: ") s.

(** ** Sample data

    A stand-in for [yaml.safe_load] on the documents used below: a blank
    document loads as null, a document of [key: word] lines as a mapping of
    strings, a single bare word as a string; anything else is a YAML
    error. *)

Fixpoint split_lines (s : str) (line : str) : list str :=
  match s with
  | [] => [line]
  | c :: s' =>
      if N.eqb c nl then line :: split_lines s' []
      else split_lines s' (line ++ [c])
  end.

Fixpoint split_item (s : str) (key : str) : option (str * value) :=
  match s with
  | [] => None
  | c :: s' =>
      if N.eqb c 58 then
        match s' with
        | 32%N :: v => Some (key, VStr v)
        | _ => None
        end
      else split_item s' (key ++ [c])
  end.

Fixpoint all_items (lines : list str) : option dict :=
  match lines with
  | [] => Some []
  | l :: rest =>
      match split_item l [], all_items rest with
      | Some kv, Some d => Some (kv :: d)
      | _, _ => None
      end
  end.

Definition flat_load (text : str) : outcome value :=
  let lines := filter (fun l => negb (forallb is_space l)) (split_lines text []) in
  match lines with
  | [] => Ret VNone
  | _ :: _ =>
      match all_items lines with
      | Some d => Ret (VDict d)
      | None =>
          match lines with
          | [word] => Ret (VStr word)
          | _ => Raise (mk_exn YAMLError (u "could not find expected ':'"))
          end
      end
  end.

(** A vault with three readable documents, one unreadable document and a
    directory whose name ends in [.md]. *)
Definition a_md : path := u "/vault/a.md".
Definition b_md : path := u "/vault/b.md".
Definition c_md : path := u "/vault/c.md".
Definition locked_md : path := u "/vault/locked.md".
Definition dir_md : path := u "/vault/archive.md".

Definition a_text : str := doc ["plain note"; ""].
Definition b_text : str := doc ["---"; "context: work"; "---"; "work note"; ""].
Definition c_text : str :=
  doc ["---"; "context: personal"; "tags: urgent"; "---"; "personal note"; ""].
Definition config_text : str := doc ["vault_path: /vault"; ""].

Definition sample_world : world :=
  mk_world flat_load
    (fun p => Ret (existsb (str_eqb p)
                     [u "/vault"; u "/srv/config.yaml"; a_md; b_md; c_md;
                      locked_md; dir_md]))
    (fun p => Ret (str_eqb p (u "/vault") || str_eqb p dir_md))
    (fun p => Ret (existsb (str_eqb p) [a_md; b_md; c_md; locked_md]))
    (fun p => if str_eqb p (u "/vault")
              then [c_md; locked_md; dir_md; a_md; b_md] else [])
    (fun p =>
       if str_eqb p a_md then Ret a_text
       else if str_eqb p b_md then Ret b_text
       else if str_eqb p c_md then Ret c_text
       else if str_eqb p (u "/srv/config.yaml") then Ret config_text
       else Raise (mk_exn PermissionError (u "Permission denied")))
    (fun p => if str_eqb p a_md then 1%Z
              else if str_eqb p b_md then 2%Z
              else if str_eqb p c_md then 3%Z else 0%Z)
    (fun p => p)
    (fun p => p)
    (u "/srv").

Definition fresh_globals : globals := mk_globals VNone None.


(** ** The scan, file by file

    What one enumerated path contributes to a scan that runs to its end. *)

Definition hits (w : world) (properties : dict) (tags : list str)
    (match_all_tags : bool) (md_file : path) : list (path * str) :=
  match is_file w md_file with
  | Ret true =>
      match scan_file w properties tags match_all_tags md_file with
      | Ret (Some hit) => [hit]
      | _ => []
      end
  | _ => []
  end.

Definition warnings_of (w : world) (properties : dict) (tags : list str)
    (match_all_tags : bool) (md_file : path) : list str :=
  match is_file w md_file with
  | Ret true =>
      match scan_file w properties tags match_all_tags md_file with
      | Raise e => if is_read_error e then [warning md_file e] else []
      | Ret _ => []
      end
  | _ => []
  end.

(** The same world with one path left out of every enumeration. *)
Definition without_file (w : world) (f : path) : world :=
  mk_world (safe_load w) (exists_ w) (is_dir w) (is_file w)
    (fun p => filter (fun x => negb (str_eqb x f)) (rglob_md w p))
    (read_text w) (st_mtime w) (resolve w) (expanduser w) (script_dir w).

(** The timestamp a retained pair is sorted by. *)
Definition mtime_of (w : world) (x : path * str) : Z := st_mtime w (fst x).

(** The text of one section of the aggregate output. *)
Definition section_text (w : world) (f : path * str) : str :=
  separator ++ [nl] ++ resolve w (fst f) ++ [nl] ++ separator ++ [nl]
    ++ snd f ++ [nl].

(** The sample world with no configuration file next to the script. *)
Definition no_config_world : world :=
  mk_world flat_load
    (fun p => Ret (str_eqb p (u "/vault")))
    (is_dir sample_world) (is_file sample_world) (rglob_md sample_world)
    (read_text sample_world) (st_mtime sample_world)
    (fun p => p) (fun p => p) (u "/srv").

(** A text split around a header: three hyphens, a run of whitespace and a
    newline; the header body; a newline, three hyphens, a run of whitespace
    and a newline; the rest. *)
Definition header_split (content ws body ws' rest : str) : Prop :=
  content = u "---" ++ ws ++ [nl] ++ body ++ [nl] ++ u "---" ++ ws' ++ [nl] ++ rest
  /\ forallb is_space ws = true
  /\ forallb is_space ws' = true.

(** The continuation that ends a match. *)
Definition finish : cont match_obj := fun _ j c => Some (mk_match j c).

(** A document whose header holds a bare word, and a vault that holds it. *)
Definition word_text : str := doc ["---"; "draft"; "---"; "body"].

Definition word_world : world :=
  mk_world flat_load
    (fun p => Ret (str_eqb p (u "/vault")))
    (fun p => Ret (str_eqb p (u "/vault")))
    (fun p => Ret (str_eqb p a_md))
    (fun p => if str_eqb p (u "/vault") then [a_md] else [])
    (fun _ => Ret word_text)
    (fun _ => 0%Z) (fun p => p) (fun p => p) (u "/srv").

(** A vault with a document in a directory that can be listed but not
    searched, so that [is_file()] raises on it, and a root under such a
    directory, on which [exists()] raises. *)
Definition sub_f_md : path := u "/vault/sub/f.md".
Definition locked_root : path := u "/locked/vault".
Definition permission_denied : exn :=
  mk_exn PermissionError (u "[Errno 13] Permission denied").

Definition locked_dir_world : world :=
  mk_world flat_load
    (fun p => if str_eqb p locked_root then Raise permission_denied
              else exists_ sample_world p)
    (is_dir sample_world)
    (fun p => if str_eqb p sub_f_md then Raise permission_denied
              else is_file sample_world p)
    (fun p => if str_eqb p (u "/vault") then [a_md; sub_f_md; b_md] else [])
    (read_text sample_world) (st_mtime sample_world)
    (fun p => p) (fun p => p) (u "/srv").

(** A document with a blank line after its header. *)
Definition spaced_text : str :=
  doc ["---"; "context: work"; "---"; ""; "body"].

(** ** Further notions used below *)

(** A path on which the scan stops: one whose test [is_file()] raises, or a
    regular file whose processing raises something other than a read
    error. *)
Definition aborts (w : world) (properties : dict) (tags : list str)
    (match_all_tags : bool) (md_file : path) : bool :=
  match is_file w md_file with
  | Raise _ => true
  | Ret false => false
  | Ret true =>
      match scan_file w properties tags match_all_tags md_file with
      | Raise e => negb (is_read_error e)
      | Ret _ => false
      end
  end.

(** A path on which [is_file()] returns false. *)
Definition not_regular (w : world) (p : path) : bool :=
  match is_file w p with
  | Ret false => true
  | _ => false
  end.

(** A regular file that can be read. *)
Definition readable (w : world) (p : path) : bool :=
  match is_file w p with
  | Ret true => match read_text w p with Ret _ => true | Raise _ => false end
  | _ => false
  end.

(** No newline of the text is directly followed by a hyphen. *)
Fixpoint no_hyphen_line (s : str) : bool :=
  match s with
  | a :: s' =>
      match s' with
      | b :: _ => negb (N.eqb a nl && N.eqb b 45) && no_hyphen_line s'
      | [] => true
      end
  | [] => true
  end.

Definition starts_with_space (s : str) : bool :=
  match s with
  | a :: _ => is_space a
  | [] => false
  end.

(** ** The other operations of the server *)

(** [x or {}] and [x or []] for an argument that may be absent. *)
Definition or_empty (A : Type) (x : option (list A)) : list A :=
  match x with
  | Some (a :: l) => a :: l
  | _ => []
  end.

(** The body of the [try] of [fetch_matching_files], after the
    configuration is loaded. *)
Definition fetch_matching_files_body (w : world) (config : value)
    (properties : option dict) (tags : option (list str))
    (match_all_tags : bool) : outcome str :=
  raw <- getitem config (u "vault_path") ;;
  p <- Path raw ;;
  let vault_path := resolve w (expanduser w p) in
  found <- exists_ w vault_path ;;
  if negb found
  then Ret (u "Error: Vault path does not exist: " ++ vault_path)
  else
  directory <- is_dir w vault_path ;;
  if negb directory
  then Ret (u "Error: Vault path is not a directory: " ++ vault_path)
  else
    let properties := or_empty properties in
    let tags := or_empty tags in
    matching_files <-
      snd (find_matching_files w vault_path properties tags match_all_tags) ;;
    Ret (concatenate_files w matching_files).

Definition fetch_matching_files (w : world) (g : globals)
    (properties : option dict) (tags : option (list str))
    (match_all_tags : bool) : str * globals :=
  let (loaded, g') := load_config w g in
  let r := config <- loaded ;;
           fetch_matching_files_body w config properties tags match_all_tags in
  match r with
  | Ret text => (text, g')
  | Raise e => (u "Error fetching matching files: " ++ exn_msg e, g')
  end.

(** The dictionary [obsidian_utils.get_vault_info] returns. *)
Definition info_dict (info : vault_info) : dict :=
  match info with
  | InfoError message => [(u "error", VStr message)]
  | Info vault_path exists_flag is_directory markdown_files_count =>
      [(u "vault_path", VStr vault_path);
       (u "exists", VBool exists_flag);
       (u "is_directory", VBool is_directory);
       (u "markdown_files_count", VInt (Z.of_nat markdown_files_count))]
  end.

(** The resource [config://vault-info]: [get_vault_info] of the server. *)
Definition server_get_vault_info (w : world) (g : globals) : dict * globals :=
  let (loaded, g') := load_config w g in
  let r :=
    config <- loaded ;;
    raw <- getitem config (u "vault_path") ;;
    p <- Path raw ;;
    let vault_path := resolve w (expanduser w p) in
    found <- get_vault_info w vault_path ;;
    let info := info_dict found in
    match dict_lookup (u "error") info with
    | None =>
        default_context <- get config (u "default_context") (VDict []) ;;
        Ret (dict_set (u "default_context") default_context info)
    | Some _ => Ret info
    end in
  match r with
  | Ret info => (info, g')
  | Raise e => ([(u "error", VStr (exn_msg e))], g')
  end.

(** The configuration path the server reads when nothing is cached. *)
Definition config_path_of (w : world) (g : globals) : path :=
  match _config_path g with
  | Some p => p
  | None => script_dir w ++ u "/config.yaml"
  end.

(** ** The command line of [obsidian_utils]

    Filters that come from the configuration file are whatever YAML made of
    them, so the matcher and the scan are stated once more over plain
    values, as Python runs them. *)

(** [v.items()] *)
Definition items (v : value) : outcome dict :=
  match v with
  | VDict d => Ret d
  | _ => Raise (mk_exn AttributeError (u "object has no attribute 'items'"))
  end.

(** [iter(v)]: the elements of a list, the characters of a string, the keys
    of a mapping. *)
Definition iterate (v : value) : outcome (list value) :=
  match v with
  | VList l => Ret l
  | VStr s => Ret (map (fun c => VStr [c]) s)
  | VDict d => Ret (map (fun kv => VStr (fst kv)) d)
  | _ => Raise (mk_exn TypeError (u "object is not iterable"))
  end.

(** [matches_criteria] on filters of any type. *)
Definition matches_criteria_any (frontmatter properties tags : value)
    (match_all_tags : bool) : outcome bool :=
  pairs <- items properties ;;
  passed <- properties_loop frontmatter pairs ;;
  if negb passed then Ret false
  else if truthy tags then
    file_tags <- get frontmatter (u "tags") (VList []) ;;
    let file_tags := normalize_tags file_tags in
    wanted <- iterate tags ;;
    if match_all_tags
    then Ret (forallb (fun tag => py_in tag file_tags) wanted)
    else Ret (existsb (fun tag => py_in tag file_tags) wanted)
  else Ret true.

(** The scan for an arbitrary matcher. *)
Definition scan_file_with (w : world) (matcher : value -> outcome bool)
    (md_file : path) : outcome (option (path * str)) :=
  content <- read_text w md_file ;;
  fm <- extract_frontmatter (safe_load w) content ;;
  ok <- matcher (fst fm) ;;
  Ret (if ok then Some (md_file, content) else None).

Fixpoint scan_loop_with (w : world) (matcher : value -> outcome bool)
    (files : list path) (matching_files : list (path * str))
    (printed : list str) : list str * outcome (list (path * str)) :=
  match files with
  | [] => (printed, Ret matching_files)
  | md_file :: rest =>
      match is_file w md_file with
      | Raise e => (printed, Raise e)
      | Ret false => scan_loop_with w matcher rest matching_files printed
      | Ret true =>
        match scan_file_with w matcher md_file with
        | Ret (Some hit) =>
            scan_loop_with w matcher rest (matching_files ++ [hit]) printed
        | Ret None => scan_loop_with w matcher rest matching_files printed
        | Raise e =>
            if is_read_error e
            then scan_loop_with w matcher rest matching_files
                   (printed ++ [warning md_file e])
            else (printed, Raise e)
        end
      end
  end.

(** [find_matching_files] on filters of any type. *)
Definition find_matching_files_any (w : world) (vault_path : path)
    (properties tags : value) (match_all_tags : bool)
    : list str * outcome (list (path * str)) :=
  let (printed, r) :=
    scan_loop_with w
      (fun fm => matches_criteria_any fm properties tags match_all_tags)
      (rglob_md w vault_path) [] [] in
  (printed,
   matching_files <- r ;;
   Ret (sort_by (fun x => st_mtime w (fst x)) matching_files)).

(** [s.strip()] *)
Fixpoint lstrip (s : str) : str :=
  match s with
  | a :: s' => if is_space a then lstrip s' else s
  | [] => []
  end.

Definition strip (s : str) : str := rev (lstrip (rev (lstrip s))).

(** [s.split('=', 1)] for a string that holds an equals sign, and
    ['=' in s]. *)
Fixpoint split_eq (s : str) : option (str * str) :=
  match s with
  | [] => None
  | a :: s' =>
      if N.eqb a 61 then Some ([], s')
      else
        match split_eq s' with
        | Some (k, v) => Some (a :: k, v)
        | None => None
        end
  end.

(** The loop over [args.property]: the mapping built and the warnings
    printed. *)
Fixpoint parse_properties (props : list str) (properties : dict)
    (printed : list str) : dict * list str :=
  match props with
  | [] => (properties, printed)
  | prop :: rest =>
      match split_eq prop with
      | Some (key, value) =>
          parse_properties rest
            (dict_set (strip key) (VStr (strip value)) properties) printed
      | None =>
          parse_properties rest properties
            (printed ++ [u "Warning: Invalid property format '" ++ prop
                         ++ u "', expected key=value"])
      end
  end.

(** [str(n)] *)
Definition str_of_nat (n : nat) : str :=
  u (NilZero.string_of_uint (Nat.to_uint n)).

(** What [argparse] hands to [main]. *)
Record cli_args := mk_args {
  arg_vault : option path;
  arg_config : option path;
  arg_property : option (list str);
  arg_tag : option (list str);
  arg_all_tags : bool;
  arg_use_default : bool;
  arg_info : bool;
  arg_dry_run : bool
}.

(** [obsidian_utils.load_config(config_path)], the path being optional. *)
Definition utils_load_config_opt (w : world) (config_path : option path)
    : outcome value :=
  utils_load_config w
    (match config_path with Some p => p | None => u "config.yaml" end).

(** The vault path [main] settles on. *)
Definition main_vault_path (w : world) (args : cli_args) (config : value)
    : outcome path :=
  match arg_vault args with
  | Some v => Ret (resolve w (expanduser w v))
  | None =>
      raw <- getitem config (u "vault_path") ;;
      p <- Path raw ;;
      Ret (resolve w (expanduser w p))
  end.

(** The search criteria [main] settles on, with the warnings printed on the
    way. *)
Definition main_criteria (args : cli_args) (config : value)
    : list str * outcome (value * value) :=
  if arg_use_default args then
    ([],
     default_context <- get config (u "default_context") (VDict []) ;;
     properties <- get default_context (u "properties") (VDict []) ;;
     tags <- get default_context (u "tags") (VList []) ;;
     Ret (properties, tags))
  else
    let (properties, printed) :=
      parse_properties (or_empty (arg_property args)) [] [] in
    (printed, Ret (VDict properties, VList (map VStr (or_empty (arg_tag args))))).

(** The lines [main] prints for the files found. *)
Definition main_output (w : world) (args : cli_args)
    (matching_files : list (path * str)) : list str :=
  if arg_dry_run args then
    (u "Found " ++ str_of_nat (length matching_files) ++ u " matching files:")
    :: map (fun f => u "  " ++ fst f) matching_files
  else [concatenate_files w matching_files].

(** The [try] of [main]: the lines printed, and the value returned or the
    exception raised. *)
Definition main_try (w : world) (args : cli_args) : list str * outcome nat :=
  match utils_load_config_opt w (arg_config args) with
  | Raise e => ([], Raise e)
  | Ret config =>
      match main_vault_path w args config with
      | Raise e => ([], Raise e)
      | Ret vault_path =>
          match exists_ w vault_path with
          | Raise e => ([], Raise e)
          | Ret false =>
              ([u "Error: Vault path does not exist: " ++ vault_path], Ret 1)
          | Ret true =>
          if arg_info args then
            match get_vault_info w vault_path with
            | Raise e => ([], Raise e)
            | Ret (Info p _ _ n) =>
                ([u "Vault: " ++ p; u "Markdown files: " ++ str_of_nat n],
                 Ret 0)
            | Ret (InfoError _) =>
                ([], Raise (mk_exn KeyError (u "'vault_path'")))
            end
          else
            match main_criteria args config with
            | (printed, Raise e) => (printed, Raise e)
            | (printed, Ret (properties, tags)) =>
                match find_matching_files_any w vault_path properties tags
                        (arg_all_tags args) with
                | (warned, Raise e) => (printed ++ warned, Raise e)
                | (warned, Ret matching_files) =>
                    (printed ++ warned ++ main_output w args matching_files,
                     Ret 0)
                end
            end
          end
      end
  end.

(** [main()]: what each call of [print] printed, in order, and the exit
    code. *)
Definition main (w : world) (args : cli_args) : list str * nat :=
  match main_try w args with
  | (printed, Ret code) => (printed, code)
  | (printed, Raise e) => (printed ++ [u "Error: " ++ exn_msg e], 1)
  end.

(** What the last call of [print] printed. *)
Definition last_printed (printed : list str) : str := last printed [].

(** * Properties *)

(** ** Strings and values *)

Lemma str_eqb_eq (s t : str) : str_eqb s t = true <-> s = t.
Proof.
  revert t; induction s as [|a s IH]; intros [|b t]; simpl;
    try (split; congruence).
  rewrite andb_true_iff, N.eqb_eq, IH. split.
  - intros [-> ->]; reflexivity.
  - intros H; inversion H; auto.
Qed.

Lemma str_eqb_refl (s : str) : str_eqb s s = true.
Proof. apply str_eqb_eq; reflexivity. Qed.

Lemma py_eq_none_r (v : value) : py_eq v VNone = true <-> v = VNone.
Proof. destruct v; simpl; split; congruence. Qed.

Lemma py_eq_none_l (v : value) : py_eq VNone v = true <-> v = VNone.
Proof. destruct v; simpl; split; congruence. Qed.

Lemma py_eq_str_r (v : value) (t : str) :
  py_eq v (VStr t) = true <-> v = VStr t.
Proof.
  destruct v; simpl; try (split; congruence).
  rewrite str_eqb_eq. split; congruence.
Qed.

Lemma py_in_str (t : str) (xs : list value) :
  py_in (VStr t) xs = true <-> In (VStr t) xs.
Proof.
  unfold py_in. rewrite existsb_exists. split.
  - intros [y [Hin Heq]]. apply py_eq_str_r in Heq. subst y. exact Hin.
  - intros Hin. exists (VStr t). split; [exact Hin|]. apply py_eq_str_r; reflexivity.
Qed.

(** ** Criteria Matcher: the property stage *)

Lemma properties_loop_forallb (md : dict) (props : dict) :
  properties_loop (VDict md) props =
  Ret (forallb (fun kv => py_eq (lookup_or_none md (fst kv)) (snd kv)) props).
Proof.
  induction props as [|[k v] props IH]; simpl; [reflexivity|].
  unfold py_ne, lookup_or_none in *.
  destruct (py_eq _ v); simpl; [exact IH | reflexivity].
Qed.

Lemma property_stage_only (md props : dict) (match_all_tags : bool) :
  matches_criteria (VDict md) props [] match_all_tags =
  properties_loop (VDict md) props.
Proof.
  unfold matches_criteria. rewrite properties_loop_forallb. simpl.
  destruct (forallb _ props); reflexivity.
Qed.

(** C1, as the specification states it, fails: a filter that requires the
    null value for a key is satisfied by metadata that lacks the key. *)
Lemma C1_absent_key_counterexample :
  properties_loop (VDict []) [(u "status", VNone)] = Ret true /\
  matches_criteria (VDict []) [(u "status", VNone)] [] false = Ret true /\
  dict_lookup (u "status") [] = None /\
  spec_property_stage [] [(u "status", VNone)] = false.
Proof. repeat split. Qed.

(** C1 (amended): on every metadata mapping the property stage returns, and
    it succeeds exactly when each pair of the filter finds, under the key, a
    value that Python's [==] equates with the required one, or finds no such
    key while the required value is null; the empty filter is satisfied by
    every mapping. *)
Theorem C1_property_stage (md props : dict) :
  (exists passed,
     properties_loop (VDict md) props = Ret passed /\
     (passed = true <->
      forall key required, In (key, required) props ->
        (exists found, dict_lookup key md = Some found /\
                       py_eq found required = true) \/
        (dict_lookup key md = None /\ required = VNone))) /\
  properties_loop (VDict md) [] = Ret true /\
  (forall all, matches_criteria (VDict md) props [] all =
               properties_loop (VDict md) props).
Proof.
  split; [|split; [reflexivity | intros; apply property_stage_only]].
  rewrite properties_loop_forallb. eexists; split; [reflexivity|].
  rewrite forallb_forall. split.
  - intros H key required Hin. specialize (H _ Hin). simpl in H.
    unfold lookup_or_none in H.
    destruct (dict_lookup key md) as [found|].
    + left. exists found. auto.
    + right. split; [reflexivity|]. apply py_eq_none_l in H. exact H.
  - intros H [key required] Hin. simpl. unfold lookup_or_none.
    destruct (H _ _ Hin) as [[found [-> Heq]] | [-> ->]]; auto.
Qed.

(** Python's [==] identifies a boolean with its integer but never a string
    with a number. *)
Example property_stage_bool_int :
  properties_loop (VDict [(u "draft", VBool true)]) [(u "draft", VInt 1)] = Ret true /\
  properties_loop (VDict [(u "n", VInt 1)]) [(u "n", VStr (u "1"))] = Ret false.
Proof. split; reflexivity. Qed.

(** ** Criteria Matcher: the tag stage *)

Lemma get_tags_normalized (md : dict) :
  get (VDict md) (u "tags") (VList []) =
  Ret (match dict_lookup (u "tags") md with Some v => v | None => VList [] end)
  /\ normalize_tags
       (match dict_lookup (u "tags") md with Some v => v | None => VList [] end)
     = spec_tag_sequence (dict_lookup (u "tags") md).
Proof.
  split; [reflexivity|].
  destruct (dict_lookup (u "tags") md) as [[]|]; reflexivity.
Qed.

(** The matcher on a mapping, in closed form. *)
Lemma matches_criteria_mapping (md props : dict) (tags : list str)
    (match_all_tags : bool) :
  matches_criteria (VDict md) props tags match_all_tags =
  Ret (forallb (fun kv => py_eq (lookup_or_none md (fst kv)) (snd kv)) props &&
       match tags with
       | [] => true
       | _ :: _ =>
           let file_tags := spec_tag_sequence (dict_lookup (u "tags") md) in
           if match_all_tags
           then forallb (fun tag => py_in (VStr tag) file_tags) tags
           else existsb (fun tag => py_in (VStr tag) file_tags) tags
       end).
Proof.
  unfold matches_criteria. rewrite properties_loop_forallb.
  cbn [bind]. destruct (forallb _ props); cbn [negb andb]; [|reflexivity].
  destruct tags as [|t tags]; [reflexivity|].
  destruct (get_tags_normalized md) as [Hget Hnorm].
  rewrite Hget. cbn [bind]. cbv zeta. rewrite Hnorm.
  destruct match_all_tags; reflexivity.
Qed.

(** C4: once the property stage has passed, a non-empty tag filter is
    decided on the normalized tag entry: in match-all mode every filter tag
    must be a member, otherwise at least one; a scalar tag entry behaves as
    the one-element list; the empty tag filter constrains nothing. *)
Theorem C4_tag_stage (md props : dict) (tags : list str)
    (match_all_tags : bool)
    (Hprops : properties_loop (VDict md) props = Ret true) :
  let file_tags := spec_tag_sequence (dict_lookup (u "tags") md) in
  (tags <> [] ->
   exists result,
     matches_criteria (VDict md) props tags match_all_tags = Ret result /\
     (result = true <->
      if match_all_tags
      then forall tag, In tag tags -> In (VStr tag) file_tags
      else exists tag, In tag tags /\ In (VStr tag) file_tags)) /\
  matches_criteria (VDict md) props [] match_all_tags = Ret true /\
  (forall md' s,
     properties_loop (VDict md') props = Ret true ->
     dict_lookup (u "tags") md = Some (VStr s) ->
     dict_lookup (u "tags") md' = Some (VList [VStr s]) ->
     matches_criteria (VDict md) props tags match_all_tags =
     matches_criteria (VDict md') props tags match_all_tags).
Proof.
  intros file_tags. subst file_tags.
  rewrite properties_loop_forallb in Hprops. injection Hprops as Hprops.
  split; [|split].
  - intros Hne. rewrite matches_criteria_mapping, Hprops. cbn [andb].
    destruct tags as [|t tags]; [congruence|].
    eexists; split; [reflexivity|]. cbv zeta.
    destruct match_all_tags.
    + rewrite forallb_forall. split; intros H tag Hin.
      * apply py_in_str. apply H. exact Hin.
      * apply py_in_str. apply H. exact Hin.
    + rewrite existsb_exists. split; intros [tag [Hin H]]; exists tag;
        (split; [exact Hin | apply py_in_str; exact H]).
  - rewrite matches_criteria_mapping, Hprops. reflexivity.
  - intros md' s Hprops' Hs Hl.
    rewrite properties_loop_forallb in Hprops'. injection Hprops' as Hprops'.
    rewrite !matches_criteria_mapping, Hprops, Hprops', Hs, Hl. reflexivity.
Qed.

Lemma C4_tag_stage_witness :
  properties_loop (VDict [(u "tags", VStr (u "work"))]) [] = Ret true /\
  matches_criteria (VDict [(u "tags", VStr (u "work"))]) [] [u "work"] true =
  matches_criteria (VDict [(u "tags", VList [VStr (u "work")])]) [] [u "work"] true.
Proof.
  split; [reflexivity|].
  apply (C4_tag_stage [(u "tags", VStr (u "work"))] [] [u "work"] true
           eq_refl); reflexivity.
Defined.

Example tag_scalar_matches_like_list :
  matches_criteria (VDict [(u "tags", VStr (u "work"))]) [] [u "work"] false = Ret true /\
  matches_criteria (VDict [(u "tags", VList [VStr (u "work")])]) [] [u "work"] false = Ret true /\
  matches_criteria (VDict [(u "tags", VInt 7)]) [] [u "work"] false = Ret false /\
  matches_criteria (VDict []) [] [u "work"] true = Ret false.
Proof. repeat split. Qed.

(** ** Criteria Matcher: monotonicity *)

Lemma lookup_fresh_forallb (md props : dict) (key : str) (v : value) :
  dict_lookup key props = None ->
  forallb (fun kv => py_eq (lookup_or_none md (fst kv)) (snd kv))
          (dict_set key v props) =
  forallb (fun kv => py_eq (lookup_or_none md (fst kv)) (snd kv)) props &&
  py_eq (lookup_or_none md key) v.
Proof.
  induction props as [|[k x] props IH]; simpl; intros Hfresh.
  - rewrite andb_true_r. reflexivity.
  - destruct (str_eqb key k); [discriminate|]. simpl.
    rewrite IH by exact Hfresh. rewrite andb_assoc. reflexivity.
Qed.

(** C5, as the specification states it, fails in "any tag" mode: removing
    the only tag of a filter that did not match leaves the empty filter,
    which matches. *)
Lemma C5_remove_last_tag_counterexample :
  matches_criteria (VDict []) [] [u "urgent"] false = Ret false /\
  matches_criteria (VDict []) [] [] false = Ret true.
Proof. split; reflexivity. Qed.

(** C5 (amended): adding a pair under a new key to the property filter, or
    adding a tag in match-all mode, never turns a failed match into a
    successful one; in "any tag" mode removing a tag never does so either,
    as long as the filter stays non-empty. *)
Theorem C5_monotonic (md props : dict) (tags : list str) (all : bool) :
  (forall key v,
     dict_lookup key props = None ->
     matches_criteria (VDict md) (dict_set key v props) tags all = Ret true ->
     matches_criteria (VDict md) props tags all = Ret true) /\
  (forall tag,
     matches_criteria (VDict md) props (tags ++ [tag]) true = Ret true ->
     matches_criteria (VDict md) props tags true = Ret true) /\
  (forall before tag after,
     tags = before ++ tag :: after ->
     before ++ after <> [] ->
     matches_criteria (VDict md) props (before ++ after) false = Ret true ->
     matches_criteria (VDict md) props tags false = Ret true).
Proof.
  split; [|split].
  - intros key v Hfresh. rewrite !matches_criteria_mapping.
    rewrite lookup_fresh_forallb by exact Hfresh.
    intros H. injection H as H. f_equal.
    apply andb_true_iff in H. destruct H as [H1 H2].
    apply andb_true_iff in H1. destruct H1 as [H1 _].
    apply andb_true_iff. split; assumption.
  - intros tag. rewrite !matches_criteria_mapping.
    intros H. injection H as H. f_equal.
    apply andb_true_iff in H. destruct H as [H1 H2]. rewrite H1. cbn [andb].
    destruct tags as [|t tags]; [reflexivity|].
    change ((t :: tags) ++ [tag]) with (t :: (tags ++ [tag])) in H2.
    cbv zeta in *. rewrite forallb_forall in *.
    intros x Hx. apply H2.
    destruct Hx as [->|Hx]; [left; reflexivity | right; apply in_or_app; auto].
  - intros before tag after -> Hne. rewrite !matches_criteria_mapping.
    intros H. injection H as H. f_equal.
    apply andb_true_iff in H. destruct H as [H1 H2]. rewrite H1. cbn [andb].
    destruct (before ++ after) as [|t rest] eqn:E; [congruence|].
    destruct (before ++ tag :: after) as [|t' rest'] eqn:E'.
    + destruct before; discriminate.
    + cbv zeta in *. rewrite existsb_exists in *.
      destruct H2 as [x [Hx Hin]]. exists x. split; [|exact Hin].
      rewrite <- E'. rewrite <- E in Hx.
      apply in_app_or in Hx. apply in_or_app.
      destruct Hx; [left | right; right]; assumption.
Qed.

Lemma C5_monotonic_witness :
  matches_criteria (VDict [(u "context", VStr (u "work"))])
    [(u "context", VStr (u "work"))] [] false = Ret true.
Proof.
  refine (proj1 (C5_monotonic [(u "context", VStr (u "work"))]
                   [(u "context", VStr (u "work"))] [] false)
            (u "status") VNone eq_refl eq_refl).
Defined.

(** ** Aggregator *)

Lemma result_parts_flat_map (w : world) (files : list (path * str))
    (acc : list str) :
  fold_left
    (fun result_parts f =>
       let '(file_path, content) := f in
       result_parts ++ [separator] ++ [resolve w file_path]
         ++ [separator] ++ [content] ++ [[]])
    files acc
  = acc ++ flat_map (section_parts w) files.
Proof.
  revert acc. induction files as [|[p c] files IH]; intros acc; simpl.
  - rewrite app_nil_r. reflexivity.
  - rewrite IH. rewrite <- app_assoc. reflexivity.
Qed.

Lemma join_cons2 (sep p q : str) (rest : list str) :
  join sep (p :: q :: rest) = p ++ sep ++ join sep (q :: rest).
Proof. reflexivity. Qed.

Lemma join_sections (w : world) (f : path * str) (files : list (path * str)) :
  join [nl] (flat_map (section_parts w) (f :: files)) =
  join [nl] (map (section_text w) (f :: files)).
Proof.
  revert f. induction files as [|g files IH]; intros f.
  - unfold section_text, section_parts. cbn [flat_map map join app].
    reflexivity.
  - change (flat_map (section_parts w) (f :: g :: files))
      with (section_parts w f ++ flat_map (section_parts w) (g :: files)).
    change (map (section_text w) (f :: g :: files))
      with (section_text w f :: map (section_text w) (g :: files)).
    specialize (IH g).
    remember (flat_map (section_parts w) (g :: files)) as parts eqn:Eparts.
    remember (map (section_text w) (g :: files)) as texts eqn:Etexts.
    destruct parts as [|p parts]; [discriminate|].
    destruct texts as [|t texts]; [discriminate|].
    unfold section_parts. cbn [app]. rewrite !join_cons2, IH.
    unfold section_text. rewrite <- !app_assoc. reflexivity.
Qed.

(** C7: the empty list yields the sentinel; a non-empty list yields, for
    each entry in input order, the separator line of eighty [=], the
    resolved path, the separator again, the content and an empty line,
    all joined by single newlines. *)
Theorem C7_aggregate (w : world) :
  concatenate_files w [] = u "No matching files found." /\
  (forall files, concatenate_files w files = spec_aggregate w files) /\
  (forall f files,
     concatenate_files w (f :: files) =
     join [nl] (flat_map (section_parts w) (f :: files)) /\
     concatenate_files w (f :: files) =
     join [nl] (map (section_text w) (f :: files))) /\
  separator = u "================================================================================".
Proof.
  assert (Hcode : forall f files,
             concatenate_files w (f :: files) =
             join [nl] (flat_map (section_parts w) (f :: files))).
  { intros f files. unfold concatenate_files.
    rewrite result_parts_flat_map. reflexivity. }
  split; [reflexivity|]. split; [|split; [|reflexivity]].
  - intros [|f files]; [reflexivity|]. rewrite Hcode. reflexivity.
  - intros f files. split; [apply Hcode|].
    rewrite Hcode. apply join_sections.
Qed.

Example aggregate_two_files :
  concatenate_files sample_world [(b_md, u "B"); (a_md, u "A")] =
  separator ++ [nl] ++ b_md ++ [nl] ++ separator ++ [nl] ++ u "B" ++ [nl; nl]
  ++ separator ++ [nl] ++ a_md ++ [nl] ++ separator ++ [nl] ++ u "A" ++ [nl].
Proof. vm_compute. reflexivity. Qed.

(** ** Sorting by modification time *)

Section SortFacts.
Variables (A : Type) (key : A -> Z).

Let le_key (x y : A) : Prop := (key x <= key y)%Z.

Lemma insert_by_perm (x : A) (l : list A) :
  Permutation (x :: l) (insert_by key x l).
Proof.
  induction l as [|y l IH]; simpl; [reflexivity|].
  destruct (key x <=? key y)%Z; [reflexivity|].
  rewrite perm_swap. apply perm_skip. exact IH.
Qed.

Lemma sort_by_perm (l : list A) : Permutation l (sort_by key l).
Proof.
  induction l as [|x l IH]; simpl; [constructor|].
  rewrite <- insert_by_perm. apply perm_skip. exact IH.
Qed.

Lemma insert_by_sorted (x : A) (l : list A) :
  StronglySorted le_key l -> StronglySorted le_key (insert_by key x l).
Proof.
  induction 1 as [|y l Hs IH Hall]; simpl.
  - repeat constructor.
  - destruct (key x <=? key y)%Z eqn:E.
    + apply Z.leb_le in E. constructor; [constructor; assumption|].
      constructor; [exact E|].
      eapply Forall_impl; [|exact Hall].
      intros z Hz. unfold le_key in *. lia.
    + apply Z.leb_gt in E. constructor; [exact IH|].
      apply (Permutation_Forall (insert_by_perm x l)).
      constructor; [unfold le_key; lia | exact Hall].
Qed.

Lemma sort_by_sorted (l : list A) : StronglySorted le_key (sort_by key l).
Proof.
  induction l as [|x l IH]; simpl; [constructor|].
  apply insert_by_sorted. exact IH.
Qed.

Lemma insert_by_stable (t : Z) (x : A) (l : list A) :
  filter (fun y => (key y =? t)%Z) (insert_by key x l) =
  filter (fun y => (key y =? t)%Z) (x :: l).
Proof.
  induction l as [|y l IH]; [reflexivity|].
  cbn [insert_by]. destruct (key x <=? key y)%Z eqn:E; [reflexivity|].
  apply Z.leb_gt in E.
  cbn [filter] in *. rewrite IH.
  destruct (key x =? t)%Z eqn:Ex, (key y =? t)%Z eqn:Ey; try reflexivity.
  apply Z.eqb_eq in Ex, Ey. lia.
Qed.

Lemma sort_by_stable (t : Z) (l : list A) :
  filter (fun y => (key y =? t)%Z) (sort_by key l) =
  filter (fun y => (key y =? t)%Z) l.
Proof.
  induction l as [|x l IH]; [reflexivity|].
  cbn [sort_by]. rewrite insert_by_stable. cbn [filter]. rewrite IH.
  reflexivity.
Qed.
End SortFacts.

(** C6: when the enumeration loop has run to its end, the Scanner returns
    the retained pairs sorted ascending by the modification time of their
    files, and pairs with equal times keep the order of the enumeration. *)
Theorem C6_sorted_by_mtime (w : world) (vault_path : path) (props : dict)
    (tags : list str) (all : bool) (printed : list str)
    (retained : list (path * str))
    (Hloop : scan_loop w props tags all (rglob_md w vault_path) [] []
             = (printed, Ret retained)) :
  exists files,
    find_matching_files w vault_path props tags all = (printed, Ret files) /\
    StronglySorted (fun x y => (mtime_of w x <= mtime_of w y)%Z) files /\
    Permutation retained files /\
    forall t,
      filter (fun x => (mtime_of w x =? t)%Z) files =
      filter (fun x => (mtime_of w x =? t)%Z) retained.
Proof.
  exists (sort_by (mtime_of w) retained).
  unfold find_matching_files. rewrite Hloop. cbn [bind].
  split; [reflexivity|]. split; [apply sort_by_sorted|].
  split; [apply sort_by_perm|]. intros t. apply sort_by_stable.
Qed.

Lemma C6_sorted_by_mtime_witness :
  exists printed retained files,
    scan_loop sample_world [] [] false (rglob_md sample_world (u "/vault")) [] []
    = (printed, Ret retained) /\
    map fst retained = [c_md; a_md; b_md] /\
    find_matching_files sample_world (u "/vault") [] [] false
    = (printed, Ret files) /\
    StronglySorted
      (fun x y => (mtime_of sample_world x <= mtime_of sample_world y)%Z) files.
Proof.
  eexists. eexists.
  assert (H : scan_loop sample_world [] [] false
                (rglob_md sample_world (u "/vault")) [] []
              = (?[printed], Ret ?[retained])) by (vm_compute; reflexivity).
  destruct (C6_sorted_by_mtime sample_world (u "/vault") [] [] false H)
    as [files [Hfind [Hsorted _]]].
  exists files. repeat split; assumption || reflexivity.
Defined.

Example scan_scenarios :
  map fst (match snd (find_matching_files sample_world (u "/vault") [] [] false)
           with Ret l => l | Raise _ => [] end) = [a_md; b_md; c_md] /\
  map fst (match snd (find_matching_files sample_world (u "/vault")
                        [(u "context", VStr (u "work"))] [] false)
           with Ret l => l | Raise _ => [] end) = [b_md] /\
  map fst (match snd (find_matching_files sample_world (u "/vault")
                        [] [u "urgent"] false)
           with Ret l => l | Raise _ => [] end) = [c_md].
Proof. vm_compute. repeat split. Qed.

(** ** Vault Scanner: one unreadable file *)

Lemma scan_loop_result_any_log (w : world) (props : dict) (tags : list str)
    (all : bool) (files : list path) :
  forall acc p1 p2,
    snd (scan_loop w props tags all files acc p1) =
    snd (scan_loop w props tags all files acc p2).
Proof.
  induction files as [|f files IH]; intros acc p1 p2; simpl; [reflexivity|].
  destruct (is_file w f) as [[|]|e0]; simpl; [|apply IH|reflexivity].
  destruct (scan_file w props tags all f) as [[hit|]|e]; try apply IH.
  destruct (is_read_error e); [apply IH | reflexivity].
Qed.

(** A scan that returns has visited every path: its result and its
    warnings are those of the paths, in order. *)
Lemma scan_loop_returns (w : world) (props : dict) (tags : list str)
    (all : bool) (files : list path) :
  forall acc printed result,
    snd (scan_loop w props tags all files acc printed) = Ret result ->
    scan_loop w props tags all files acc printed =
    (printed ++ flat_map (warnings_of w props tags all) files,
     Ret (acc ++ flat_map (hits w props tags all) files)).
Proof.
  induction files as [|f files IH]; intros acc printed result; simpl.
  - intros _. rewrite !app_nil_r. reflexivity.
  - unfold warnings_of, hits.
    destruct (is_file w f) as [[|]|e0]; simpl; [|apply IH|discriminate].
    destruct (scan_file w props tags all f) as [[hit|]|e]; simpl.
    + intros H. rewrite (IH _ _ _ H). rewrite <- app_assoc. reflexivity.
    + apply IH.
    + destruct (is_read_error e); simpl.
      * intros H. rewrite (IH _ _ _ H). rewrite <- app_assoc. reflexivity.
      * discriminate.
Qed.

Lemma scan_file_unreadable (w : world) (props : dict) (tags : list str)
    (all : bool) (f : path) (e : exn) :
  read_text w f = Raise e -> scan_file w props tags all f = Raise e.
Proof. intros H. unfold scan_file. rewrite H. reflexivity. Qed.

Lemma scan_loop_skips_unreadable (w : world) (props : dict) (tags : list str)
    (all : bool) (f : path) (e : exn) (regular : bool) :
  is_file w f = Ret regular ->
  read_text w f = Raise e -> is_read_error e = true ->
  forall files acc p1 p2,
    snd (scan_loop w props tags all files acc p1) =
    snd (scan_loop w props tags all
           (filter (fun x => negb (str_eqb x f)) files) acc p2).
Proof.
  intros Hfile Hread Herr. induction files as [|x files IH]; intros acc p1 p2.
  - reflexivity.
  - cbn [filter]. destruct (str_eqb x f) eqn:E; cbn [negb].
    + apply str_eqb_eq in E. subst x. cbn [scan_loop]. rewrite Hfile.
      destruct regular; [|apply IH].
      rewrite (scan_file_unreadable w props tags all f Hread), Herr. apply IH.
    + cbn [scan_loop].
      destruct (is_file w x) as [[|]|e0]; [|apply IH|reflexivity].
      destruct (scan_file w props tags all x) as [[hit|]|e']; try apply IH.
      destruct (is_read_error e'); [apply IH | reflexivity].
Qed.

Lemma scan_loop_without_file (w : world) (f : path) (props : dict)
    (tags : list str) (all : bool) (files : list path) :
  forall acc printed,
    scan_loop (without_file w f) props tags all files acc printed =
    scan_loop w props tags all files acc printed.
Proof.
  induction files as [|x files IH]; intros acc printed; [reflexivity|].
  cbn [scan_loop].
  change (is_file (without_file w f) x) with (is_file w x).
  change (scan_file (without_file w f) props tags all x)
    with (scan_file w props tags all x).
  destruct (is_file w x) as [[|]|e0]; [|apply IH|reflexivity].
  destruct (scan_file w props tags all x) as [[hit|]|e]; try apply IH.
  destruct (is_read_error e); [apply IH | reflexivity].
Qed.

(** A file on which [is_file()] returns and whose read fails with a read or
    decode error never aborts the scan: the outcome is that of scanning the
    vault without the file, and when the scan returns, the file is not in
    the result and, if it is regular, its warning has been printed. *)
Theorem unreadable_file_skipped (w : world) (vault_path : path)
    (props : dict) (tags : list str) (all : bool) (f : path) (e : exn)
    (regular : bool)
    (Hfile : is_file w f = Ret regular)
    (Hread : read_text w f = Raise e)
    (Herr : is_read_error e = true) :
  snd (find_matching_files w vault_path props tags all) =
  snd (find_matching_files (without_file w f) vault_path props tags all) /\
  (forall files,
     snd (find_matching_files (without_file w f) vault_path props tags all)
     = Ret files ->
     snd (find_matching_files w vault_path props tags all) = Ret files /\
     ~ In f (map fst files) /\
     (regular = true -> In f (rglob_md w vault_path) ->
      In (warning f e) (fst (find_matching_files w vault_path props tags all)))).
Proof.
  assert (Hsame :
    snd (find_matching_files w vault_path props tags all) =
    snd (find_matching_files (without_file w f) vault_path props tags all)).
  { unfold find_matching_files. rewrite scan_loop_without_file.
    change (rglob_md (without_file w f) vault_path)
      with (filter (fun x => negb (str_eqb x f)) (rglob_md w vault_path)).
    pose proof (scan_loop_skips_unreadable w props tags all f Hfile Hread Herr
                  (rglob_md w vault_path) [] [] []) as H.
    destruct (scan_loop w props tags all (rglob_md w vault_path) [] [])
      as [p1 r1].
    destruct (scan_loop w props tags all
                (filter (fun x => negb (str_eqb x f)) (rglob_md w vault_path))
                [] []) as [p2 r2].
    simpl in H. subst r2. reflexivity. }
  split; [exact Hsame|].
  intros files Hfiles. rewrite Hsame. split; [exact Hfiles|].
  rewrite <- Hsame in Hfiles. clear Hsame.
  unfold find_matching_files in *.
  destruct (scan_loop w props tags all (rglob_md w vault_path) [] [])
    as [printed r] eqn:Hloop.
  cbn [fst snd] in *.
  destruct r as [retained|e0]; [|discriminate].
  cbn [bind] in Hfiles. injection Hfiles as Hfiles.
  assert (Hret : snd (scan_loop w props tags all (rglob_md w vault_path) [] [])
                 = Ret retained) by (rewrite Hloop; reflexivity).
  apply scan_loop_returns in Hret. rewrite Hloop in Hret.
  injection Hret as Hprinted Hretained. cbn [app] in *.
  split.
  - intros Hin. subst files.
    apply (Permutation_in _
             (Permutation_map fst
                (Permutation_sym
                   (sort_by_perm (fun x => st_mtime w (fst x)) retained))))
      in Hin.
    subst retained. apply in_map_iff in Hin.
    destruct Hin as [[p c] [Hp Hin]]. simpl in Hp. subst p.
    apply in_flat_map in Hin. destruct Hin as [x [_ Hx]].
    unfold hits in Hx. destruct (is_file w x) as [[|]|e1]; try destruct Hx.
    unfold scan_file in Hx at 1.
    destruct (read_text w x) as [content|e'] eqn:Hrx; cbn [bind] in Hx;
      [|destruct Hx].
    destruct (extract_frontmatter (safe_load w) content) as [fm|e'];
      cbn [bind] in Hx; [|destruct Hx].
    destruct (matches_criteria (fst fm) props tags all) as [[|]|e'];
      cbn [bind] in Hx; [|destruct Hx|destruct Hx].
    destruct Hx as [Hx|[]]. injection Hx as Hx _. subst x. congruence.
  - intros Hreg Hin. subst printed regular.
    apply in_flat_map. exists f. split; [exact Hin|].
    unfold warnings_of. rewrite Hfile.
    rewrite (scan_file_unreadable w props tags all f Hread), Herr.
    left. reflexivity.
Qed.

Lemma unreadable_file_skipped_witness :
  read_text sample_world locked_md
  = Raise (mk_exn PermissionError (u "Permission denied")) /\
  snd (find_matching_files sample_world (u "/vault") [] [] false) =
  snd (find_matching_files (without_file sample_world locked_md)
         (u "/vault") [] [] false).
Proof.
  assert (Hread : read_text sample_world locked_md
                  = Raise (mk_exn PermissionError (u "Permission denied")))
    by (vm_compute; reflexivity).
  assert (Hfile : is_file sample_world locked_md = Ret true)
    by (vm_compute; reflexivity).
  split; [exact Hread|].
  exact (proj1 (unreadable_file_skipped sample_world (u "/vault") [] []
                  false locked_md Hfile Hread eq_refl)).
Defined.

Example unreadable_file_warning :
  fst (find_matching_files sample_world (u "/vault") [] [] false) =
  [u "Warning: Could not read /vault/locked.md: Permission denied"].
Proof. vm_compute. reflexivity. Qed.

(** C8: the code does not keep what the claim states.  In a vault that
    holds a document under a directory that can be listed but not searched,
    [is_file()] raises a permission error on that document; the test stands
    before the [try], so the scan raises and returns nothing, although the
    scan of the same vault without that document returns the two readable
    documents. *)
Theorem C8_inaccessible_file_aborts :
  rglob_md locked_dir_world (u "/vault") = [a_md; sub_f_md; b_md] /\
  is_file locked_dir_world sub_f_md = Raise permission_denied /\
  is_read_error permission_denied = true /\
  find_matching_files locked_dir_world (u "/vault") [] [] false
  = ([], Raise permission_denied) /\
  find_matching_files (without_file locked_dir_world sub_f_md)
    (u "/vault") [] [] false
  = ([], Ret [(a_md, a_text); (b_md, b_text)]).
Proof. vm_compute. repeat split. Qed.

(** ** Vault Info Query *)

Lemma matches_no_criteria (fm : value) (all : bool) :
  matches_criteria fm [] [] all = Ret true.
Proof. reflexivity. Qed.

Lemma scan_loop_no_criteria_count (w : world) (all : bool)
    (files : list path) :
  forall acc printed printed' result,
    scan_loop w [] [] all files acc printed = (printed', Ret result) ->
    length result + length printed'
      + length (filter (not_regular w) files)
    = length acc + length printed + length files.
Proof.
  induction files as [|f files IH]; intros acc printed printed' result;
    cbn [scan_loop filter].
  - intros H. injection H as -> ->. simpl. lia.
  - unfold not_regular at 1.
    destruct (is_file w f) as [[|]|e0]; [| |discriminate].
    + unfold scan_file.
      destruct (read_text w f) as [content|e]; cbn [bind].
      * destruct (extract_frontmatter (safe_load w) content) as [fm|e];
          cbn [bind].
        -- rewrite matches_no_criteria. cbn [bind].
           intros H. apply IH in H. rewrite length_app in H. simpl in *. lia.
        -- destruct (is_read_error e); [|discriminate].
           intros H. apply IH in H. rewrite length_app in H. simpl in *. lia.
      * destruct (is_read_error e); [|discriminate].
        intros H. apply IH in H. rewrite length_app in H. simpl in *. lia.
    + intros H. apply IH in H. simpl in *. lia.
Qed.

(** C10, as the specification states it, fails: for a root under a
    directory that cannot be searched, [exists()] raises a permission
    error, and the query, which guards nothing, raises it too. *)
Lemma C10_exists_raises_counterexample :
  exists_ locked_dir_world locked_root = Raise permission_denied /\
  get_vault_info locked_dir_world locked_root = Raise permission_denied.
Proof. split; reflexivity. Qed.

(** C10 (amended): the query returns the error record exactly when
    [exists()] returns false; it raises exactly what [exists()] or, for an
    existing root, [is_dir()] raises; and it returns a record exactly when
    both return, the record then holding the root, true, the answer of
    [is_dir()] and the length of the enumeration the Scanner walks, so
    that a scan with no criteria that returns has retained, warned about or
    skipped as non-regular exactly that many paths. *)
Theorem C10_vault_info (w : world) (vault_path : path) :
  (get_vault_info w vault_path = Ret (InfoError (u "Vault path does not exist"))
   <-> exists_ w vault_path = Ret false) /\
  (forall e,
     get_vault_info w vault_path = Raise e <->
     exists_ w vault_path = Raise e \/
     (exists_ w vault_path = Ret true /\ is_dir w vault_path = Raise e)) /\
  (forall p found directory n,
     get_vault_info w vault_path = Ret (Info p found directory n) <->
     p = vault_path /\ found = true /\
     exists_ w vault_path = Ret true /\
     is_dir w vault_path = Ret directory /\
     n = length (rglob_md w vault_path)) /\
  (forall p found directory n all printed files,
     get_vault_info w vault_path = Ret (Info p found directory n) ->
     find_matching_files w vault_path [] [] all = (printed, Ret files) ->
     n = length files + length printed
         + length (filter (not_regular w) (rglob_md w vault_path))).
Proof.
  assert (Hcount : forall p found directory n,
             get_vault_info w vault_path = Ret (Info p found directory n) ->
             n = length (rglob_md w vault_path)).
  { unfold get_vault_info. intros p found directory n.
    destruct (exists_ w vault_path) as [[|]|e0]; cbn [bind negb];
      [|discriminate|discriminate].
    destruct (is_dir w vault_path) as [d|e1]; cbn [bind]; [|discriminate].
    intros H. injection H as _ _ _ <-. reflexivity. }
  split; [|split; [|split]]; [unfold get_vault_info ..|].
  - destruct (exists_ w vault_path) as [[|]|e0]; cbn [bind negb].
    + destruct (is_dir w vault_path); cbn [bind]; split; discriminate.
    + split; reflexivity.
    + split; discriminate.
  - intros e. destruct (exists_ w vault_path) as [[|]|e0]; cbn [bind negb].
    + destruct (is_dir w vault_path) as [d|e1]; cbn [bind].
      * split; [discriminate|]. intros [H|[_ H]]; discriminate.
      * split.
        -- intros H. injection H as ->. right. auto.
        -- intros [H|[_ H]]; [discriminate|]. injection H as ->. reflexivity.
    + split; [discriminate|]. intros [H|[H _]]; discriminate.
    + split.
      * intros H. injection H as ->. left. reflexivity.
      * intros [H|[H _]]; [|discriminate]. injection H as ->. reflexivity.
  - intros p found directory n.
    destruct (exists_ w vault_path) as [[|]|e0]; cbn [bind negb].
    + destruct (is_dir w vault_path) as [d|e1]; cbn [bind].
      * split.
        -- intros H. injection H as <- <- <- <-. repeat split; reflexivity.
        -- intros [-> [-> [_ [H ->]]]]. injection H as ->. reflexivity.
      * split; [discriminate|]. intros [_ [_ [_ [H _]]]]. discriminate.
    + split; [discriminate|]. intros [_ [_ [H _]]]. discriminate.
    + split; [discriminate|]. intros [_ [_ [H _]]]. discriminate.
  - intros p found directory n all printed files Hinfo.
    rewrite (Hcount _ _ _ _ Hinfo). unfold find_matching_files.
    destruct (scan_loop w [] [] all (rglob_md w vault_path) [] [])
      as [printed0 [retained|e]] eqn:Hloop; cbn [bind]; [|discriminate].
    intros H. injection H as -> <-.
    apply scan_loop_no_criteria_count in Hloop.
    rewrite <- (Permutation_length
                  (sort_by_perm (fun x => st_mtime w (fst x)) retained)).
    simpl in Hloop. lia.
Qed.

Example vault_info_sample :
  get_vault_info sample_world (u "/nowhere")
  = Ret (InfoError (u "Vault path does not exist")) /\
  get_vault_info sample_world (u "/vault")
  = Ret (Info (u "/vault") true true 5).
Proof. split; reflexivity. Qed.

(** ** Entry Surface: fetch_context *)

(** C9, as the specification states it, fails: when loading the
    configuration raises, the returned string starts with
    ["Error fetching"], not with ["Error: "]. *)
Lemma C9_error_form_counterexample :
  fst (fetch_context no_config_world fresh_globals (u "work")) =
  u "Error fetching work context: Configuration file not found: /srv/config.yaml"
  /\
  is_error_string
    (fst (fetch_context no_config_world fresh_globals (u "work"))) = false.
Proof. split; vm_compute; reflexivity. Qed.

(** C9 (amended): [fetch_context] always returns a string, and which one is
    decided step by step.  Whatever raises, be it the loading of the
    configuration, the lookup of [vault_path], [Path], [exists()],
    [is_dir()] or the scan, yields
    ["Error fetching <context_type> context: <message>"] with the message
    of that exception; a configured root on which [exists()] returns false,
    or [is_dir()] returns false, yields the matching
    ["Error: Vault path ..."] message with that root; otherwise the text is
    the aggregate of the files the Scanner returns for the property filter
    [{"context": context_type}] and no tags under the configured root. *)
Theorem C9_fetch_context (w : world) (g : globals) (context_type : str) :
  let text := fst (fetch_context w g context_type) in
  let failed e :=
    text = u "Error fetching " ++ context_type ++ u " context: " ++ exn_msg e in
  (forall e, fst (load_config w g) = Raise e -> failed e) /\
  (forall config,
     fst (load_config w g) = Ret config ->
     (forall e, getitem config (u "vault_path") = Raise e -> failed e) /\
     (forall raw,
        getitem config (u "vault_path") = Ret raw ->
        (forall e, Path raw = Raise e -> failed e) /\
        (forall configured,
           Path raw = Ret configured ->
           let vault_path := resolve w (expanduser w configured) in
           (forall e, exists_ w vault_path = Raise e -> failed e) /\
           (exists_ w vault_path = Ret false ->
            text = u "Error: Vault path does not exist: " ++ vault_path) /\
           (exists_ w vault_path = Ret true ->
            (forall e, is_dir w vault_path = Raise e -> failed e) /\
            (is_dir w vault_path = Ret false ->
             text = u "Error: Vault path is not a directory: " ++ vault_path) /\
            (is_dir w vault_path = Ret true ->
             (forall e,
                snd (find_matching_files w vault_path
                       [(u "context", VStr context_type)] [] false) = Raise e ->
                failed e) /\
             (forall files,
                snd (find_matching_files w vault_path
                       [(u "context", VStr context_type)] [] false) = Ret files ->
                text = concatenate_files w files)))))).
Proof.
  cbv zeta. unfold fetch_context.
  destruct (load_config w g) as [loaded g']. cbn [fst].
  split.
  { intros e ->. reflexivity. }
  intros config ->. cbn [bind]. unfold fetch_context_body.
  split.
  { intros e ->. reflexivity. }
  intros raw ->. cbn [bind]. split.
  { intros e ->. reflexivity. }
  intros configured ->. cbn [bind]. split; [|split].
  { intros e ->. reflexivity. }
  { intros ->. reflexivity. }
  intros ->. cbn [bind negb]. split; [|split].
  { intros e ->. reflexivity. }
  { intros ->. reflexivity. }
  intros ->. cbn [bind negb]. split.
  { intros e ->. reflexivity. }
  intros files ->. reflexivity.
Qed.

Example fetch_context_work :
  fst (fetch_context sample_world fresh_globals (u "work")) =
  separator ++ [nl] ++ b_md ++ [nl] ++ separator ++ [nl] ++ b_text ++ [nl].
Proof. vm_compute. reflexivity. Qed.

Example fetch_context_no_match :
  fst (fetch_context sample_world fresh_globals (u "travel")) =
  u "No matching files found.".
Proof. vm_compute. reflexivity. Qed.

(** ** The backtracking matcher *)

Section MatcherFacts.
Variable R : Type.
Implicit Types (kont : cont R) (s : str) (c : option (nat * nat)).

Lemma many_complete (k : cls) (greedy : bool) s1 :
  forall s2 i c kont,
    forallb (cls_mem k) s1 = true ->
    kont s2 (i + length s1) c <> None ->
    many k greedy (s1 ++ s2) i c kont <> None.
Proof.
  induction s1 as [|a s1 IH]; intros s2 i c kont Hall Hk.
  - simpl in Hk. rewrite Nat.add_0_r in Hk. simpl.
    destruct s2 as [|b s2]; simpl; [exact Hk|].
    destruct (cls_mem k b); [|exact Hk].
    destruct greedy.
    + destruct (many k true s2 (S i) c kont); [discriminate | exact Hk].
    + destruct (kont (b :: s2) i c); [discriminate | congruence].
  - simpl in Hall. apply andb_true_iff in Hall. destruct Hall as [Ha Hall].
    simpl in Hk. rewrite Nat.add_succ_r in Hk.
    specialize (IH s2 (S i) c kont Hall Hk).
    simpl. rewrite Ha. destruct greedy.
    + destruct (many k true (s1 ++ s2) (S i) c kont);
        [discriminate | congruence].
    + destruct (kont (a :: s1 ++ s2) i c); [discriminate | exact IH].
Qed.

(** A greedy repetition stops after the longest run the rest of the
    pattern accepts. *)
Lemma many_greedy_last (k : cls) s :
  forall i c kont x,
    many k true s i c kont = Some x ->
    exists s1 s2,
      s = s1 ++ s2 /\ forallb (cls_mem k) s1 = true /\
      kont s2 (i + length s1) c = Some x /\
      forall p q, s = p ++ q -> forallb (cls_mem k) p = true ->
                  length s1 < length p -> kont q (i + length p) c = None.
Proof.
  induction s as [|a s IH]; intros i c kont x H.
  - simpl in H. exists [], []. simpl. rewrite Nat.add_0_r.
    repeat split; auto.
    intros p q Hpq _ Hlen. destruct p; [simpl in Hlen; lia | discriminate].
  - simpl in H. destruct (cls_mem k a) eqn:Ha.
    + destruct (many k true s (S i) c kont) as [y|] eqn:Hrec.
      * injection H as ->.
        destruct (IH _ _ _ _ Hrec) as [s1 [s2 [-> [Hall [Hk Hmax]]]]].
        exists (a :: s1), s2. simpl. rewrite Ha, Nat.add_succ_r.
        repeat split; auto.
        intros p q Hpq Hp Hlen. destruct p as [|b p]; [simpl in Hlen; lia|].
        simpl in Hpq. injection Hpq as <- Hpq.
        simpl in Hp. apply andb_true_iff in Hp. destruct Hp as [_ Hp].
        simpl in Hlen. simpl. rewrite Nat.add_succ_r.
        apply (Hmax p q Hpq Hp). lia.
      * exists [], (a :: s). simpl. rewrite Nat.add_0_r.
        repeat split; auto.
        intros p q Hpq Hp Hlen. destruct p as [|b p]; [simpl in Hlen; lia|].
        simpl in Hpq. injection Hpq as <- ->.
        simpl in Hp. apply andb_true_iff in Hp. destruct Hp as [_ Hp].
        simpl. rewrite Nat.add_succ_r.
        destruct (kont q (S (i + length p)) c) eqn:Hq; [|reflexivity].
        exfalso. apply (many_complete k true p q (S i) c kont Hp);
          [simpl; congruence | exact Hrec].
    + exists [], (a :: s). simpl. rewrite Nat.add_0_r.
      repeat split; auto.
      intros p q Hpq Hp Hlen. destruct p as [|b p]; [simpl in Hlen; lia|].
      simpl in Hpq. injection Hpq as <- _.
      simpl in Hp. rewrite Ha in Hp. discriminate.
Qed.

(** A lazy repetition stops after the shortest run the rest of the
    pattern accepts. *)
Lemma many_lazy_first (k : cls) s :
  forall i c kont x,
    many k false s i c kont = Some x ->
    exists s1 s2,
      s = s1 ++ s2 /\ forallb (cls_mem k) s1 = true /\
      kont s2 (i + length s1) c = Some x /\
      forall p q, s = p ++ q -> length p < length s1 ->
                  kont q (i + length p) c = None.
Proof.
  induction s as [|a s IH]; intros i c kont x H.
  - simpl in H. exists [], []. simpl. rewrite Nat.add_0_r.
    repeat split; auto. intros p q _ Hlen. lia.
  - simpl in H. destruct (cls_mem k a) eqn:Ha.
    + destruct (kont (a :: s) i c) as [y|] eqn:Hstop.
      * injection H as ->. exists [], (a :: s). simpl.
        rewrite Nat.add_0_r. repeat split; auto.
        intros p q _ Hlen. lia.
      * destruct (IH _ _ _ _ H) as [s1 [s2 [-> [Hall [Hk Hmin]]]]].
        exists (a :: s1), s2. simpl. rewrite Ha, Nat.add_succ_r.
        repeat split; auto.
        intros p q Hpq Hlen. destruct p as [|b p].
        -- simpl in Hpq. subst q. simpl. rewrite Nat.add_0_r. exact Hstop.
        -- simpl in Hpq. injection Hpq as <- Hpq.
           simpl in Hlen. simpl. rewrite Nat.add_succ_r.
           apply (Hmin p q Hpq). lia.
    + exists [], (a :: s). simpl. rewrite Nat.add_0_r.
      repeat split; auto. intros p q _ Hlen. lia.
Qed.

Lemma run_one_lit (a : char) s i c kont x :
  run (One (Lit a)) s i c kont = Some x ->
  exists s', s = a :: s' /\ kont s' (S i) c = Some x.
Proof.
  simpl. destruct s as [|b s']; [discriminate|].
  destruct (N.eqb a b) eqn:E; [|discriminate].
  apply N.eqb_eq in E. subst b. intros H. exists s'. auto.
Qed.

Lemma run_one_lit_here (a : char) s i c kont :
  run (One (Lit a)) (a :: s) i c kont = kont s (S i) c.
Proof. simpl. rewrite N.eqb_refl. reflexivity. Qed.

Lemma run_lit (l : str) :
  forall s i c kont x,
    run (lit l) s i c kont = Some x ->
    exists s', s = l ++ s' /\ kont s' (i + length l) c = Some x.
Proof.
  induction l as [|a l IH]; intros s i c kont x H.
  - simpl in *. rewrite Nat.add_0_r. exists s. auto.
  - change (run (lit (a :: l)) s i c kont)
      with (run (One (Lit a)) s i c (fun s' j c' => run (lit l) s' j c' kont))
      in H.
    apply run_one_lit in H. destruct H as [s' [-> H]].
    apply IH in H. destruct H as [s'' [-> H]].
    exists s''. simpl. rewrite Nat.add_succ_r. auto.
Qed.

Lemma run_lit_here (l : str) :
  forall s i c kont,
    run (lit l) (l ++ s) i c kont = kont s (i + length l) c.
Proof.
  induction l as [|a l IH]; intros s i c kont.
  - simpl. rewrite Nat.add_0_r. reflexivity.
  - change (run (lit (a :: l)) ((a :: l) ++ s) i c kont)
      with (run (One (Lit a)) (a :: l ++ s) i c
              (fun s' j c' => run (lit l) s' j c' kont)).
    rewrite run_one_lit_here, IH. simpl. rewrite Nat.add_succ_r. reflexivity.
Qed.
End MatcherFacts.

(** ** The header pattern *)

Lemma run_seq_cons (R : Type) (r : re) (rs : list re) (s : str) (i : nat)
    (c : option (nat * nat)) (kont : cont R) :
  run (seq (r :: rs)) s i c kont =
  run r s i c (fun s' j c' => run (seq rs) s' j c' kont).
Proof. reflexivity. Qed.

Lemma app_eq_length (A : Type) (p p' q q' : list A) :
  p ++ q = p' ++ q' -> length p = length p' -> p = p' /\ q = q'.
Proof.
  revert p'. induction p as [|a p IH]; intros [|b p'] H Hlen;
    simpl in *; try discriminate; auto.
  injection H as -> H. injection Hlen as Hlen.
  destruct (IH _ H Hlen) as [-> ->]. auto.
Qed.

Lemma skipn_length_app (A : Type) (p q : list A) :
  skipn (length p) (p ++ q) = q.
Proof. induction p; simpl; auto. Qed.

Lemma firstn_length_app (A : Type) (p q : list A) :
  firstn (length p) (p ++ q) = p.
Proof. induction p; simpl; congruence. Qed.

(** What remains of the pattern after the whitespace of the opening
    delimiter, and after the header body. *)
Local Abbreviation after_opener :=
  [One (Lit nl); Grp (Many Any false);
   One (Lit nl); lit (u "---"); Many Space true; One (Lit nl)].
Local Abbreviation after_body :=
  [One (Lit nl); lit (u "---"); Many Space true; One (Lit nl)].

Lemma after_body_complete (ws' rest : str) (j : nat) (c : option (nat * nat)) :
  forallb is_space ws' = true ->
  run (seq after_body) (nl :: u "---" ++ ws' ++ nl :: rest) j c finish <> None.
Proof.
  intros Hws. rewrite run_seq_cons, run_one_lit_here.
  rewrite run_seq_cons, run_lit_here. rewrite run_seq_cons.
  change (run (Many Space true) (ws' ++ nl :: rest) (S j + length (u "---")) c
            (fun s' j' c' => run (seq [One (Lit nl)]) s' j' c' finish))
    with (many Space true (ws' ++ nl :: rest) (S j + length (u "---")) c
            (fun s' j' c' => run (seq [One (Lit nl)]) s' j' c' finish)).
  apply many_complete; [exact Hws|].
  rewrite run_seq_cons, run_one_lit_here. discriminate.
Qed.

Lemma after_opener_complete (body ws' rest : str) (j : nat)
    (c : option (nat * nat)) :
  forallb is_space ws' = true ->
  run (seq after_opener) (nl :: body ++ nl :: u "---" ++ ws' ++ nl :: rest)
      j c finish <> None.
Proof.
  intros Hws. rewrite run_seq_cons, run_one_lit_here. rewrite run_seq_cons.
  change (run (Grp (Many Any false))
            (body ++ nl :: u "---" ++ ws' ++ nl :: rest) (S j) c
            (fun s' j' c' => run (seq after_body) s' j' c' finish))
    with (many Any false (body ++ nl :: u "---" ++ ws' ++ nl :: rest) (S j) c
            (fun s' j' _ => run (seq after_body) s' j' (Some (S j, j')) finish)).
  apply many_complete.
  - apply forallb_forall. reflexivity.
  - apply after_body_complete. exact Hws.
Qed.

Lemma pattern_complete (content ws body ws' rest : str) :
  header_split content ws body ws' rest -> re_match pattern content <> None.
Proof.
  intros [-> [Hws Hws']]. unfold re_match, pattern.
  rewrite run_seq_cons. cbn [run Nat.eqb].
  rewrite run_seq_cons, run_lit_here. rewrite run_seq_cons.
  change (run (Many Space true) ?s ?i ?c ?k) with (many Space true s i c k).
  apply many_complete; [exact Hws|].
  apply (after_opener_complete body ws' rest _ None Hws').
Qed.

(** A match of the header pattern: the split it found, the spans it
    reports, and its place among all splits of the text: the longest
    opening whitespace, then the shortest body, then the longest closing
    whitespace. *)
Lemma pattern_inv (content : str) (m : match_obj) :
  re_match pattern content = Some m ->
  exists ws body ws' rest,
    header_split content ws body ws' rest /\
    m_span1 m = Some (4 + length ws, 4 + length ws + length body) /\
    m_end m = 4 + length ws + length body + 4 + length ws' + 1 /\
    forall ws2 body2 ws2' rest2,
      header_split content ws2 body2 ws2' rest2 ->
      length ws2 <= length ws /\
      (length ws2 = length ws ->
       length body <= length body2 /\
       (length body2 = length body -> length ws2' <= length ws')).
Proof.
  unfold re_match, pattern. intros H.
  rewrite run_seq_cons in H. cbn [run Nat.eqb] in H.
  rewrite run_seq_cons in H. apply run_lit in H.
  destruct H as [s1 [-> H]]. rewrite run_seq_cons in H.
  change (run (Many Space true) ?s ?i ?c ?k) with (many Space true s i c k) in H.
  apply many_greedy_last in H.
  destruct H as [ws [s2 [-> [Hws [H Hmax]]]]].
  rewrite run_seq_cons in H. apply run_one_lit in H.
  destruct H as [s3 [-> H]]. rewrite run_seq_cons in H.
  change (run (Grp (Many Any false)) ?s ?i ?c ?k)
    with (many Any false s i c (fun s' j' _ => k s' j' (Some (i, j')))) in H.
  apply many_lazy_first in H.
  destruct H as [body [s4 [-> [_ [H Hmin]]]]].
  rewrite run_seq_cons in H. apply run_one_lit in H.
  destruct H as [s5 [-> H]]. rewrite run_seq_cons in H. apply run_lit in H.
  destruct H as [s6 [-> H]]. rewrite run_seq_cons in H.
  change (run (Many Space true) ?s ?i ?c ?k) with (many Space true s i c k) in H.
  apply many_greedy_last in H.
  destruct H as [ws' [s7 [-> [Hws' [H Hmax']]]]].
  rewrite run_seq_cons in H. apply run_one_lit in H.
  destruct H as [rest [-> H]]. cbn [seq run] in H. injection H as <-.
  exists ws, body, ws', rest.
  split; [repeat split; assumption|].
  split; [cbn [m_span1 length u map list_ascii_of_string]; f_equal; f_equal; lia|].
  split; [cbn [m_end length u map list_ascii_of_string]; lia|].
  intros ws2 body2 ws2' rest2 [Heq [Hws2 Hws2']].
  apply app_inv_head in Heq.
  assert (Hle : length ws2 <= length ws).
  { destruct (Nat.le_gt_cases (length ws2) (length ws)) as [|Hgt]; [assumption|].
    exfalso.
    specialize (Hmax ws2 ([nl] ++ body2 ++ [nl] ++ u "---" ++ ws2' ++ [nl] ++ rest2)
                  Heq Hws2 Hgt).
    revert Hmax. apply after_opener_complete. exact Hws2'. }
  split; [exact Hle|]. intros Hlen.
  destruct (app_eq_length _ _ _ _ Heq (eq_sym Hlen)) as [_ Heq1].
  injection Heq1 as Heq1.
  assert (Hle2 : length body <= length body2).
  { destruct (Nat.le_gt_cases (length body) (length body2)) as [|Hgt];
      [assumption|].
    exfalso.
    specialize (Hmin body2 ([nl] ++ u "---" ++ ws2' ++ [nl] ++ rest2) Heq1 Hgt).
    revert Hmin. apply after_body_complete. exact Hws2'. }
  split; [exact Hle2|]. intros Hlen2.
  destruct (app_eq_length _ _ _ _ Heq1 (eq_sym Hlen2)) as [_ Heq2].
  injection Heq2 as Heq2.
  destruct (Nat.le_gt_cases (length ws2') (length ws')) as [|Hgt]; [assumption|].
  exfalso.
  specialize (Hmax' ws2' (nl :: rest2) Heq2 Hws2' Hgt).
  rewrite run_seq_cons, run_one_lit_here in Hmax'.
  cbn [seq run finish] in Hmax'. discriminate.
Qed.

Lemma match_region (content : str) (m : match_obj) :
  re_match pattern content = Some m ->
  exists ws ws',
    header_split content ws (group1 m content) ws' (skipn (m_end m) content) /\
    forall ws2 body2 ws2' rest2,
      header_split content ws2 body2 ws2' rest2 ->
      length ws2 <= length ws /\
      (length ws2 = length ws ->
       length (group1 m content) <= length body2 /\
       (length body2 = length (group1 m content) ->
        length ws2' <= length ws')).
Proof.
  intros H. apply pattern_inv in H.
  destruct H as [ws [body [ws' [rest [Hsplit [Hspan [Hend Hprio]]]]]]].
  exists ws, ws'.
  assert (Hbody : group1 m content = body).
  { unfold group1, slice. rewrite Hspan. destruct Hsplit as [-> _].
    replace (4 + length ws + length body - (4 + length ws))
      with (length body) by lia.
    replace (4 + length ws) with (length (u "---" ++ ws ++ [nl]))
      by (rewrite !length_app; simpl; lia).
    replace (u "---" ++ ws ++ [nl] ++ body ++ [nl] ++ u "---" ++ ws' ++ [nl] ++ rest)
      with ((u "---" ++ ws ++ [nl]) ++ body ++ [nl] ++ u "---" ++ ws' ++ [nl] ++ rest)
      by (rewrite <- !app_assoc; reflexivity).
    rewrite skipn_length_app. apply firstn_length_app. }
  assert (Hrest : skipn (m_end m) content = rest).
  { rewrite Hend. destruct Hsplit as [-> _].
    replace (4 + length ws + length body + 4 + length ws' + 1)
      with (length (u "---" ++ ws ++ [nl] ++ body ++ [nl] ++ u "---" ++ ws' ++ [nl]))
      by (rewrite !length_app; simpl; lia).
    replace (u "---" ++ ws ++ [nl] ++ body ++ [nl] ++ u "---" ++ ws' ++ [nl] ++ rest)
      with ((u "---" ++ ws ++ [nl] ++ body ++ [nl] ++ u "---" ++ ws' ++ [nl]) ++ rest)
      by (rewrite <- !app_assoc; reflexivity).
    apply skipn_length_app. }
  rewrite Hbody, Hrest. split; assumption.
Qed.

Lemma startswith_app (p s : str) : startswith p (p ++ s) = true.
Proof. induction p; simpl; [reflexivity|]. rewrite N.eqb_refl. assumption. Qed.

Lemma no_opening_no_region (content : str) :
  startswith (u "---") content = false -> re_match pattern content = None.
Proof.
  intros Hstart. destruct (re_match pattern content) as [m|] eqn:Hm;
    [|reflexivity].
  apply pattern_inv in Hm.
  destruct Hm as [ws [body [ws' [rest [[-> _] _]]]]].
  rewrite startswith_app in Hstart. discriminate.
Qed.

(** C3, as the specification states it, fails in both directions: a closing
    line that directly follows the opening line is not recognized; a blank
    line after the opening line is swallowed by the opening delimiter, so
    that the first closing line becomes part of the header; and delimiter
    lines with trailing whitespace are recognized. *)
Lemma C3_header_region_counterexample :
  (spec_header_region (doc ["---"; "---"; ""]) = Some ([], []) /\
   header_region (doc ["---"; "---"; ""]) = None) /\
  (spec_header_region (doc ["---"; ""; "---"; "x"; "---"; ""])
   = Some ([], doc ["x"; "---"; ""]) /\
   header_region (doc ["---"; ""; "---"; "x"; "---"; ""])
   = Some (doc ["---"; "x"], [])) /\
  (spec_header_region (doc ["--- "; "x"; "--- "; "body"]) = None /\
   header_region (doc ["--- "; "x"; "--- "; "body"]) = Some (u "x", u "body")).
Proof. vm_compute. repeat split. Qed.

(** C3 (amended): a header region is recognized exactly when the text is
    three hyphens, a run of whitespace (line breaks included), a newline,
    any text, a newline, three hyphens, a run of whitespace and a newline,
    followed by the rest; among such splits the one reported has the longest
    opening whitespace, then the shortest body, then the longest closing
    whitespace; a text that does not start with three hyphens is returned
    unchanged with the empty mapping. *)
Theorem C3_header_region (content : str) :
  (header_region content <> None <->
   exists ws body ws' rest, header_split content ws body ws' rest) /\
  (forall body rest,
     header_region content = Some (body, rest) ->
     exists ws ws',
       header_split content ws body ws' rest /\
       forall ws2 body2 ws2' rest2,
         header_split content ws2 body2 ws2' rest2 ->
         length ws2 <= length ws /\
         (length ws2 = length ws ->
          length body <= length body2 /\
          (length body2 = length body -> length ws2' <= length ws'))) /\
  (forall load,
     (startswith (u "---") content = false \/ header_region content = None) ->
     extract_frontmatter load content = Ret (VDict [], content)).
Proof.
  split; [|split].
  - unfold header_region. split.
    + destruct (re_match pattern content) as [m|] eqn:Hm; [|congruence].
      intros _. destruct (match_region _ Hm) as [ws [ws' [Hsplit _]]].
      eauto.
    + intros [ws [body [ws' [rest Hsplit]]]].
      pose proof (pattern_complete Hsplit) as Hne.
      destruct (re_match pattern content); congruence.
  - unfold header_region. intros body rest.
    destruct (re_match pattern content) as [m|] eqn:Hm; [|discriminate].
    intros H. injection H as <- <-. apply match_region. exact Hm.
  - intros load H. unfold extract_frontmatter.
    assert (Hnone : re_match pattern content = None).
    { destruct H as [H|H]; [apply no_opening_no_region; exact H|].
      unfold header_region in H.
      destruct (re_match pattern content); [discriminate | reflexivity]. }
    rewrite Hnone. reflexivity.
Qed.

Lemma C3_header_region_witness :
  header_region b_text = Some (u "context: work", doc ["work note"; ""]) /\
  exists ws ws',
    header_split b_text ws (u "context: work") ws' (doc ["work note"; ""]).
Proof.
  assert (H : header_region b_text
              = Some (u "context: work", doc ["work note"; ""]))
    by (vm_compute; reflexivity).
  split; [exact H|].
  destruct (proj1 (proj2 (C3_header_region b_text)) _ _ H)
    as [ws [ws' [Hsplit _]]].
  exists ws, ws'. exact Hsplit.
Defined.

(** ** Header Extractor *)

(** C2, as the specification states it, fails: whitespace-only lines after
    the closing delimiter belong to the match, so the remainder is not the
    text that follows the closing delimiter and its newline. *)
Lemma C2_remainder_counterexample :
  extract_frontmatter flat_load spaced_text
  = Ret (VDict [(u "context", VStr (u "work"))], u "body") /\
  spec_extract_frontmatter flat_load spaced_text
  = (VDict [(u "context", VStr (u "work"))], nl :: u "body").
Proof. vm_compute. split; reflexivity. Qed.

(** C2 (amended): when the loader, on the header body, raises nothing but a
    YAML error and returns nothing truthy but a mapping, the Header
    Extractor returns, and its metadata is a mapping: the empty mapping
    with the text unchanged when no header region is found or the loader
    raises; otherwise the loaded mapping (the empty mapping for a falsy
    result) with the text after the whole match, that is after the closing
    delimiter, the whitespace that follows it and the last newline of that
    run. *)
Theorem C2_extract_frontmatter (load : str -> outcome value) (content : str)
    (Hyaml : forall body rest e,
        header_region content = Some (body, rest) ->
        load body = Raise e -> is_YAMLError e = true)
    (Hmap : forall body rest parsed,
        header_region content = Some (body, rest) ->
        load body = Ret parsed -> truthy parsed = true ->
        is_mapping parsed = true) :
  exists md remainder,
    extract_frontmatter load content = Ret (VDict md, remainder) /\
    ((header_region content = None /\ md = [] /\ remainder = content) \/
     (exists body rest e,
        header_region content = Some (body, rest) /\ load body = Raise e /\
        md = [] /\ remainder = content) \/
     (exists ws body ws' parsed,
        header_split content ws body ws' remainder /\
        header_region content = Some (body, remainder) /\
        load body = Ret parsed /\
        VDict md = if truthy parsed then parsed else VDict [])).
Proof.
  unfold extract_frontmatter, header_region in *.
  destruct (re_match pattern content) as [m|] eqn:Hm.
  2:{ exists [], content. split; [reflexivity|]. left. auto. }
  destruct (match_region _ Hm) as [ws [ws' [Hsplit _]]].
  cbv zeta.
  destruct (load (group1 m content)) as [parsed|e] eqn:Hload.
  - destruct (truthy parsed) eqn:Htruthy.
    + pose proof (Hmap _ _ _ eq_refl Hload Htruthy) as Hdict.
      destruct parsed as [| | | | |d]; try discriminate.
      exists d, (skipn (m_end m) content). split; [reflexivity|].
      right; right. exists ws, (group1 m content), ws', (VDict d).
      rewrite Htruthy. auto.
    + exists [], (skipn (m_end m) content). split; [reflexivity|].
      right; right. exists ws, (group1 m content), ws', parsed.
      rewrite Htruthy. auto.
  - rewrite (Hyaml _ _ _ eq_refl Hload).
    exists [], content. split; [reflexivity|].
    right; left. exists (group1 m content), (skipn (m_end m) content), e. auto.
Qed.

Lemma C2_extract_frontmatter_witness :
  exists md remainder,
    extract_frontmatter flat_load b_text = Ret (VDict md, remainder) /\
    header_region b_text = Some (u "context: work", remainder).
Proof.
  assert (Hregion : header_region b_text
                    = Some (u "context: work", doc ["work note"; ""]))
    by (vm_compute; reflexivity).
  assert (Hload : flat_load (u "context: work")
                  = Ret (VDict [(u "context", VStr (u "work"))]))
    by (vm_compute; reflexivity).
  destruct (C2_extract_frontmatter flat_load b_text) as [md [remainder [H Hcase]]].
  - intros body rest e Hr Hl. rewrite Hregion in Hr. injection Hr as <- <-.
    rewrite Hload in Hl. discriminate.
  - intros body rest parsed Hr Hl _. rewrite Hregion in Hr.
    injection Hr as <- <-. rewrite Hload in Hl. injection Hl as <-.
    reflexivity.
  - exists md, remainder. split; [exact H|].
    destruct Hcase as [[Hnone _] | [[body [rest [e [Hr [Hl _]]]]]
                      | [ws [body [ws' [parsed [_ [Hr _]]]]]]]].
    + rewrite Hregion in Hnone. discriminate.
    + rewrite Hregion in Hr. injection Hr as <- <-.
      rewrite Hload in Hl. discriminate.
    + rewrite Hregion in Hr. injection Hr as _ <-. exact Hregion.
Defined.

(** A header that holds a bare word loads as a string, and the extractor
    returns that string as the metadata; the matcher then raises on it, and
    the scan, which catches read errors only, raises too. *)
Example extract_frontmatter_bare_word :
  extract_frontmatter flat_load word_text = Ret (VStr (u "draft"), u "body") /\
  (exists e,
     matches_criteria (VStr (u "draft")) [(u "context", VStr (u "work"))] [] false
     = Raise e /\ is_read_error e = false) /\
  (exists e,
     snd (find_matching_files word_world (u "/vault")
            [(u "context", VStr (u "work"))] [] false) = Raise e) /\
  (exists e,
     fetch_context_body word_world
       (VDict [(u "vault_path", VStr (u "/vault"))]) (u "work") = Raise e).
Proof.
  vm_compute. repeat split; eexists; try split; reflexivity.
Qed.

(** * Further properties of the code *)

(** ** Criteria Matcher *)

Lemma spec_property_stage_non_null (md props : dict) :
  (forall key required, In (key, required) props -> required <> VNone) ->
  forallb (fun kv => py_eq (lookup_or_none md (fst kv)) (snd kv)) props =
  spec_property_stage md props.
Proof.
  unfold spec_property_stage.
  induction props as [|[k v] props IH]; intros Hnn; [reflexivity|].
  cbn [forallb fst snd]. rewrite IH.
  - f_equal. unfold lookup_or_none.
    destruct (dict_lookup k md) as [found|]; [reflexivity|].
    destruct (py_eq VNone v) eqn:E; [|reflexivity].
    apply py_eq_none_l in E. exfalso. apply (Hnn k v); [left; reflexivity|exact E].
  - intros key required Hin. apply (Hnn key required). right. exact Hin.
Qed.

(** A filter that requires no null value is satisfied only by metadata
    that holds every key of the filter, each with an equal value. *)
Theorem property_stage_requires_presence (md props : dict)
    (Hnn : forall key required, In (key, required) props -> required <> VNone) :
  properties_loop (VDict md) props = Ret (spec_property_stage md props) /\
  (properties_loop (VDict md) props = Ret true <->
   forall key required, In (key, required) props ->
     exists found, dict_lookup key md = Some found /\
                   py_eq found required = true).
Proof.
  rewrite properties_loop_forallb, (spec_property_stage_non_null md props Hnn).
  split; [reflexivity|].
  unfold spec_property_stage. split.
  - intros H. injection H as H. rewrite forallb_forall in H.
    intros key required Hin. specialize (H _ Hin). cbn [fst snd] in H.
    destruct (dict_lookup key md) as [found|]; [|discriminate].
    exists found. auto.
  - intros H. f_equal. apply forallb_forall. intros [key required] Hin.
    cbn [fst snd]. destruct (H _ _ Hin) as [found [-> Heq]]. exact Heq.
Qed.

Lemma property_stage_requires_presence_witness :
  properties_loop (VDict [(u "context", VStr (u "work"))])
    [(u "context", VStr (u "work"))] = Ret true /\
  properties_loop (VDict []) [(u "context", VStr (u "work"))] = Ret false.
Proof.
  assert (Hnn : forall key required,
             In (key, required) [(u "context", VStr (u "work"))] ->
             required <> VNone).
  { intros key required [H|[]]. injection H as _ <-. discriminate. }
  split.
  - rewrite (proj1 (property_stage_requires_presence
                      [(u "context", VStr (u "work"))] _ Hnn)).
    reflexivity.
  - rewrite (proj1 (property_stage_requires_presence [] _ Hnn)). reflexivity.
Defined.

(** On metadata that is not a mapping the matcher returns true when both
    filters are empty and raises an attribute error otherwise. *)
Theorem matches_criteria_not_mapping (fm : value) (props : dict)
    (tags : list str) (all : bool)
    (Hfm : is_mapping fm = false) :
  matches_criteria fm [] [] all = Ret true /\
  (props <> [] \/ tags <> [] ->
   exists e, matches_criteria fm props tags all = Raise e /\
             exn_kind e = AttributeError /\ is_read_error e = false).
Proof.
  split; [reflexivity|]. intros Hne.
  destruct fm as [| | | | |d]; try discriminate;
    (destruct props as [|[k v] props];
     [ destruct tags as [|t tags];
       [ destruct Hne; congruence
       | eexists; split; [reflexivity | split; reflexivity] ]
     | eexists; split; [reflexivity | split; reflexivity] ]).
Qed.

Lemma matches_criteria_not_mapping_witness :
  exists e,
    matches_criteria (VStr (u "draft")) [(u "context", VStr (u "work"))] [] false
    = Raise e /\ exn_kind e = AttributeError.
Proof.
  destruct (proj2 (matches_criteria_not_mapping (VStr (u "draft"))
                     [(u "context", VStr (u "work"))] [] false eq_refl))
    as [e [H [Hk _]]].
  - left. discriminate.
  - exists e. split; assumption.
Defined.

(** ** Vault Scanner *)

Lemma scan_loop_prefix (w : world) (props : dict) (tags : list str)
    (all : bool) (before rest : list path) :
  existsb (aborts w props tags all) before = false ->
  forall acc printed,
    scan_loop w props tags all (before ++ rest) acc printed =
    scan_loop w props tags all rest
      (acc ++ flat_map (hits w props tags all) before)
      (printed ++ flat_map (warnings_of w props tags all) before).
Proof.
  induction before as [|f before IH]; intros Hno acc printed.
  - simpl. rewrite !app_nil_r. reflexivity.
  - cbn [existsb] in Hno. apply orb_false_iff in Hno.
    destruct Hno as [Hf Hno]. specialize (IH Hno).
    cbn [app scan_loop flat_map]. unfold aborts, hits, warnings_of in *.
    destruct (is_file w f) as [[|]|e0]; [|apply IH|discriminate].
    destruct (scan_file w props tags all f) as [[hit|]|e].
    + rewrite IH. cbn [app]. rewrite <- ?app_assoc. reflexivity.
    + rewrite IH. cbn [app]. rewrite <- ?app_assoc. reflexivity.
    + destruct (is_read_error e); [|discriminate].
      rewrite IH. cbn [app]. rewrite <- ?app_assoc. reflexivity.
Qed.

(** The scan stops at the first regular file whose processing raises
    something other than a read error: it raises that exception, with the
    warnings printed so far, whatever files come after. *)
Theorem scan_stops_at_first_error (w : world) (vault_path : path)
    (props : dict) (tags : list str) (all : bool)
    (before after : list path) (f : path) (e : exn)
    (Hfiles : rglob_md w vault_path = before ++ f :: after)
    (Hbefore : existsb (aborts w props tags all) before = false)
    (Hfile : is_file w f = Ret true)
    (Hraise : scan_file w props tags all f = Raise e)
    (Hkind : is_read_error e = false) :
  find_matching_files w vault_path props tags all =
  (flat_map (warnings_of w props tags all) before, Raise e).
Proof.
  unfold find_matching_files. rewrite Hfiles.
  rewrite (scan_loop_prefix w props tags all before (f :: after) Hbefore).
  cbn [scan_loop app]. rewrite Hfile, Hraise, Hkind. reflexivity.
Qed.

Lemma scan_stops_at_first_error_witness :
  exists e,
    find_matching_files word_world (u "/vault")
      [(u "context", VStr (u "work"))] [] false = ([], Raise e) /\
    exn_kind e = AttributeError.
Proof.
  assert (Hraise : scan_file word_world [(u "context", VStr (u "work"))] []
                     false a_md
                   = Raise (mk_exn AttributeError
                              (u "object has no attribute 'get'")))
    by (vm_compute; reflexivity).
  eexists. split.
  - exact (scan_stops_at_first_error word_world (u "/vault")
             [(u "context", VStr (u "work"))] [] false [] [] a_md
             eq_refl eq_refl eq_refl Hraise eq_refl).
  - reflexivity.
Defined.

Lemma hits_In (w : world) (props : dict) (tags : list str) (all : bool)
    (f p : path) (c : str) :
  In (p, c) (hits w props tags all f) <->
  p = f /\ is_file w f = Ret true /\ read_text w f = Ret c /\
  exists fm rest,
    extract_frontmatter (safe_load w) c = Ret (fm, rest) /\
    matches_criteria fm props tags all = Ret true.
Proof.
  unfold hits, scan_file.
  destruct (is_file w f) as [[|]|e0];
    [ | split; [intros [] | intros [_ [H _]]; discriminate]
      | split; [intros [] | intros [_ [H _]]; discriminate] ].
  destruct (read_text w f) as [content|e]; cbn [bind].
  2:{ split; [intros [] | intros [_ [_ [H _]]]; discriminate]. }
  destruct (extract_frontmatter (safe_load w) content) as [[fm rest]|e] eqn:Hx;
    cbn [bind fst].
  2:{ split; [intros [] |].
      intros [_ [_ [H [fm [rest [Hx' _]]]]]]. injection H as <-.
      rewrite Hx in Hx'. discriminate. }
  destruct (matches_criteria fm props tags all) as [[|]|e] eqn:Hm; cbn [bind].
  - split.
    + intros [H|[]]. injection H as <- <-. repeat split; try reflexivity.
      exists fm, rest. auto.
    + intros [-> [_ [H _]]]. injection H as <-. left. reflexivity.
  - split; [intros [] |].
    intros [_ [_ [H [fm' [rest' [Hx' Hm']]]]]]. injection H as <-.
    rewrite Hx in Hx'. injection Hx' as <- <-. rewrite Hm in Hm'. discriminate.
  - split; [intros [] |].
    intros [_ [_ [H [fm' [rest' [Hx' Hm']]]]]]. injection H as <-.
    rewrite Hx in Hx'. injection Hx' as <- <-. rewrite Hm in Hm'. discriminate.
Qed.

Lemma find_returns (w : world) (vault_path : path) (props : dict)
    (tags : list str) (all : bool) (printed : list str)
    (files : list (path * str)) :
  find_matching_files w vault_path props tags all = (printed, Ret files) ->
  printed = flat_map (warnings_of w props tags all) (rglob_md w vault_path) /\
  files = sort_by (fun x => st_mtime w (fst x))
            (flat_map (hits w props tags all) (rglob_md w vault_path)).
Proof.
  unfold find_matching_files.
  destruct (scan_loop w props tags all (rglob_md w vault_path) [] [])
    as [printed0 r] eqn:Hloop.
  destruct r as [retained|e]; cbn [bind]; [|discriminate].
  intros H. injection H as <- <-.
  assert (Hret : snd (scan_loop w props tags all (rglob_md w vault_path) [] [])
                 = Ret retained) by (rewrite Hloop; reflexivity).
  apply scan_loop_returns in Hret. rewrite Hloop in Hret.
  injection Hret as -> ->. split; reflexivity.
Qed.

(** When the scan returns, it holds exactly the enumerated regular files
    that were read, whose header was extracted and whose metadata matched,
    each paired with the full text that was read. *)
Theorem scan_result_membership (w : world) (vault_path : path) (props : dict)
    (tags : list str) (all : bool) (printed : list str)
    (files : list (path * str))
    (Hfind : find_matching_files w vault_path props tags all
             = (printed, Ret files)) :
  forall p c,
    In (p, c) files <->
    In p (rglob_md w vault_path) /\ is_file w p = Ret true /\
    read_text w p = Ret c /\
    exists fm rest,
      extract_frontmatter (safe_load w) c = Ret (fm, rest) /\
      matches_criteria fm props tags all = Ret true.
Proof.
  apply find_returns in Hfind. destruct Hfind as [_ ->]. intros p c.
  assert (Hperm := sort_by_perm (fun x => st_mtime w (fst x))
                     (flat_map (hits w props tags all) (rglob_md w vault_path))).
  split.
  - intros Hin. apply (Permutation_in _ (Permutation_sym Hperm)) in Hin.
    apply in_flat_map in Hin. destruct Hin as [f [Hf Hin]].
    apply hits_In in Hin. destruct Hin as [-> H]. split; assumption.
  - intros [Hf H]. apply (Permutation_in _ Hperm).
    apply in_flat_map. exists p. split; [exact Hf|].
    apply hits_In. split; [reflexivity | exact H].
Qed.

Lemma scan_result_membership_witness :
  exists printed files,
    find_matching_files sample_world (u "/vault")
      [(u "context", VStr (u "work"))] [] false = (printed, Ret files) /\
    (In (b_md, b_text) files <->
     In b_md (rglob_md sample_world (u "/vault")) /\
     is_file sample_world b_md = Ret true /\
     read_text sample_world b_md = Ret b_text /\
     exists fm rest,
       extract_frontmatter (safe_load sample_world) b_text = Ret (fm, rest) /\
       matches_criteria fm [(u "context", VStr (u "work"))] [] false = Ret true).
Proof.
  eexists. eexists.
  assert (H : find_matching_files sample_world (u "/vault")
                [(u "context", VStr (u "work"))] [] false
              = (?[printed], Ret ?[files])) by (vm_compute; reflexivity).
  split; [exact H|].
  exact (scan_result_membership sample_world (u "/vault")
           [(u "context", VStr (u "work"))] [] false H b_md b_text).
Defined.

Lemma extract_frontmatter_total (load : str -> outcome value) (content : str) :
  (forall s e, load s = Raise e -> is_YAMLError e = true) ->
  exists r, extract_frontmatter load content = Ret r.
Proof.
  intros Hload. unfold extract_frontmatter.
  destruct (re_match pattern content) as [m|]; [|eexists; reflexivity].
  cbv zeta. destruct (load (group1 m content)) as [v|e] eqn:E.
  - eexists; reflexivity.
  - rewrite (Hload _ _ E). eexists; reflexivity.
Qed.

Lemma hits_no_criteria (w : world) (all : bool) (f : path) (regular : bool) :
  (forall s e, safe_load w s = Raise e -> is_YAMLError e = true) ->
  (forall p e, read_text w p = Raise e -> is_read_error e = true) ->
  is_file w f = Ret regular ->
  aborts w [] [] all f = false /\
  map fst (hits w [] [] all f) = if readable w f then [f] else [].
Proof.
  intros Hload Hread Hfile. unfold aborts, hits, readable, scan_file.
  rewrite Hfile. destruct regular; [|split; reflexivity].
  destruct (read_text w f) as [c|e] eqn:E; cbn [bind].
  - destruct (extract_frontmatter_total (safe_load w) c Hload) as [r ->].
    cbn [bind]. rewrite matches_no_criteria. cbn [bind]. split; reflexivity.
  - rewrite (Hread _ _ E). split; reflexivity.
Qed.

(** With no criteria, a test [is_file()] that returns on every enumerated
    path, a loader that raises YAML errors only and reads that fail with
    read errors only, the scan always returns, and it retains exactly the
    regular files that could be read. *)
Theorem scan_no_criteria_total (w : world) (vault_path : path) (all : bool)
    (Hfile : forall p, In p (rglob_md w vault_path) ->
                       exists regular, is_file w p = Ret regular)
    (Hload : forall s e, safe_load w s = Raise e -> is_YAMLError e = true)
    (Hread : forall p e, read_text w p = Raise e -> is_read_error e = true) :
  exists printed files,
    find_matching_files w vault_path [] [] all = (printed, Ret files) /\
    Permutation (map fst files) (filter (readable w) (rglob_md w vault_path)).
Proof.
  assert (Hno : forall files,
             (forall p, In p files -> exists regular, is_file w p = Ret regular) ->
             existsb (aborts w [] [] all) files = false /\
             map fst (flat_map (hits w [] [] all) files)
             = filter (readable w) files).
  { induction files as [|f files IH]; intros Hf; [split; reflexivity|].
    destruct (Hf f (or_introl eq_refl)) as [regular Hreg].
    destruct (hits_no_criteria w all f Hload Hread Hreg) as [Ha Hh].
    destruct (IH (fun p Hp => Hf p (or_intror Hp))) as [IHa IHh].
    cbn [existsb flat_map filter]. rewrite Ha, IHa, map_app, Hh, IHh.
    split; [reflexivity|]. destruct (readable w f); reflexivity. }
  destruct (Hno _ Hfile) as [Habort Hmap].
  unfold find_matching_files.
  pose proof (scan_loop_prefix w [] [] all (rglob_md w vault_path) []
                Habort [] []) as Hloop.
  rewrite app_nil_r in Hloop. rewrite Hloop. cbn [scan_loop app bind].
  eexists. eexists. split; [reflexivity|].
  rewrite <- Hmap. apply Permutation_map. apply Permutation_sym.
  apply sort_by_perm.
Qed.

Lemma scan_no_criteria_total_witness :
  exists printed files,
    find_matching_files sample_world (u "/vault") [] [] false
    = (printed, Ret files) /\
    Permutation (map fst files) [c_md; a_md; b_md].
Proof.
  assert (Hfile : forall p, In p (rglob_md sample_world (u "/vault")) ->
                            exists regular, is_file sample_world p = Ret regular).
  { intros p _. eexists. reflexivity. }
  assert (Hload : forall s e,
             safe_load sample_world s = Raise e -> is_YAMLError e = true).
  { intros s e. change (safe_load sample_world s) with (flat_load s).
    unfold flat_load.
    destruct (filter (fun l => negb (forallb is_space l)) (split_lines s []))
      as [|l0 ls]; [discriminate|].
    destruct (all_items (l0 :: ls)); [discriminate|].
    destruct ls; [discriminate|]. intros H. injection H as <-. reflexivity. }
  assert (Hread : forall p e,
             read_text sample_world p = Raise e -> is_read_error e = true).
  { intros p e. cbn [read_text sample_world].
    repeat match goal with
           | |- (if ?b then _ else _) = _ -> _ => destruct b; [discriminate|]
           end.
    intros H. injection H as <-. reflexivity. }
  destruct (scan_no_criteria_total sample_world (u "/vault") false
              Hfile Hload Hread)
    as [printed [files [Hfind Hperm]]].
  exists printed, files. split; [exact Hfind|].
  assert (Hfilter : filter (readable sample_world)
                      (rglob_md sample_world (u "/vault"))
                    = [c_md; a_md; b_md]) by (vm_compute; reflexivity).
  rewrite Hfilter in Hperm. exact Hperm.
Defined.

(** ** Aggregator: composition and the sentinel *)

Lemma join_app (sep : str) (a b : list str) :
  a <> [] -> b <> [] -> join sep (a ++ b) = join sep a ++ sep ++ join sep b.
Proof.
  intros Ha Hb. induction a as [|p a IH]; [congruence|].
  destruct a as [|q a].
  - destruct b as [|r b]; [congruence|]. reflexivity.
  - change ((p :: q :: a) ++ b) with (p :: q :: (a ++ b)).
    rewrite !join_cons2. change (q :: a ++ b) with ((q :: a) ++ b).
    rewrite IH by discriminate. rewrite <- !app_assoc. reflexivity.
Qed.

Lemma concatenate_files_parts (w : world) (f : path * str)
    (files : list (path * str)) :
  concatenate_files w (f :: files) =
  join [nl] (flat_map (section_parts w) (f :: files)).
Proof.
  unfold concatenate_files. rewrite result_parts_flat_map. reflexivity.
Qed.

(** The aggregate of two non-empty lists one after the other is the two
    aggregates joined by one newline. *)
Theorem concatenate_files_app (w : world) (l1 l2 : list (path * str))
    (H1 : l1 <> []) (H2 : l2 <> []) :
  concatenate_files w (l1 ++ l2) =
  concatenate_files w l1 ++ [nl] ++ concatenate_files w l2.
Proof.
  destruct l1 as [|f l1]; [congruence|]. destruct l2 as [|g l2]; [congruence|].
  change ((f :: l1) ++ g :: l2) with (f :: (l1 ++ g :: l2)).
  rewrite !concatenate_files_parts.
  change (f :: l1 ++ g :: l2) with ((f :: l1) ++ g :: l2).
  rewrite flat_map_app. apply join_app.
  - unfold section_parts. cbn [flat_map app]. discriminate.
  - unfold section_parts. cbn [flat_map app]. discriminate.
Qed.

Lemma concatenate_files_app_witness :
  concatenate_files sample_world ([(a_md, a_text)] ++ [(b_md, b_text)]) =
  concatenate_files sample_world [(a_md, a_text)] ++ [nl]
    ++ concatenate_files sample_world [(b_md, b_text)].
Proof.
  apply (concatenate_files_app sample_world); discriminate.
Defined.

Lemma concatenate_files_head (w : world) (f : path * str)
    (files : list (path * str)) :
  exists rest, concatenate_files w (f :: files) = 61%N :: rest.
Proof.
  rewrite concatenate_files_parts.
  destruct (flat_map (section_parts w) files) as [|p parts] eqn:E.
  - cbn [flat_map]. rewrite E. unfold section_parts. cbn [app].
    rewrite join_cons2. eexists. reflexivity.
  - cbn [flat_map]. rewrite E. unfold section_parts. cbn [app].
    rewrite join_cons2. eexists. reflexivity.
Qed.

(** The sentinel is returned for the empty list only, and no aggregate,
    the sentinel included, starts with ["Error"]. *)
Theorem sentinel_iff_empty (w : world) (files : list (path * str)) :
  (concatenate_files w files = u "No matching files found." <-> files = []) /\
  startswith (u "Error") (concatenate_files w files) = false.
Proof.
  destruct files as [|f files].
  - split; [split; reflexivity | reflexivity].
  - destruct (concatenate_files_head w f files) as [rest ->].
    split; [split; discriminate | reflexivity].
Qed.

(** ** Header Extractor: a document built around a header *)

Lemma app_eq_shorter (A : Type) (p p' q q' : list A) :
  p ++ q = p' ++ q' -> length p < length p' ->
  exists a t, p' = p ++ a :: t /\ q = a :: t ++ q'.
Proof.
  revert p'. induction p as [|x p IH]; intros [|y p'] H Hlen;
    simpl in *; try lia.
  - subst q. exists y, p'. auto.
  - injection H as -> H. destruct (IH p' H) as [a [t [-> ->]]]; [lia|].
    exists a, t. auto.
Qed.

Lemma no_hyphen_line_inside (x y : str) :
  no_hyphen_line (x ++ nl :: 45%N :: y) = false.
Proof.
  induction x as [|a x IH].
  - reflexivity.
  - change ((a :: x) ++ nl :: 45%N :: y) with (a :: (x ++ nl :: 45%N :: y)).
    cbn [no_hyphen_line].
    destruct (x ++ nl :: 45%N :: y) as [|b rest] eqn:E.
    + destruct x; discriminate.
    + rewrite IH. apply andb_false_r.
Qed.

Lemma space_run_before (ws tail s : str) :
  forallb is_space ws = true ->
  ws ++ nl :: tail = nl :: s ->
  starts_with_space s = false -> s <> [] \/ tail = s ->
  ws = [] /\ tail = s.
Proof.
  intros Hws Heq Hs Hne. destruct ws as [|a ws].
  - simpl in Heq. injection Heq as ->. auto.
  - exfalso. simpl in Heq. injection Heq as -> Heq.
    cbn [forallb] in Hws. apply andb_true_iff in Hws. destruct Hws as [_ Hws].
    destruct ws as [|b ws].
    + simpl in Heq. subst s. discriminate.
    + simpl in Heq. subst s. cbn [forallb starts_with_space] in Hs, Hws.
      apply andb_true_iff in Hws. destruct Hws as [Hb _]. congruence.
Qed.

(** A document made of a line of three hyphens, a header body, a line of
    three hyphens and the rest is split back into that body and that rest,
    provided the body is not empty, does not start with whitespace and has
    no line that starts with a hyphen after its first, and the rest does
    not start with whitespace; the metadata is then what the loader makes
    of the body. *)
Theorem header_round_trip (load : str -> outcome value) (body rest : str)
    (Hne : body <> [])
    (Hbody : starts_with_space body = false)
    (Hlines : no_hyphen_line body = true)
    (Hrest : starts_with_space rest = false) :
  let content := u "---" ++ [nl] ++ body ++ [nl] ++ u "---" ++ [nl] ++ rest in
  header_region content = Some (body, rest) /\
  extract_frontmatter load content =
  match load body with
  | Ret parsed => Ret (if truthy parsed then parsed else VDict [], rest)
  | Raise e => if is_YAMLError e then Ret (VDict [], content) else Raise e
  end.
Proof.
  intros content.
  assert (Hsplit0 : header_split content [] body [] rest)
    by (repeat split).
  destruct (re_match pattern content) as [m|] eqn:Hm.
  2:{ exfalso. exact (pattern_complete Hsplit0 Hm). }
  destruct (match_region _ Hm) as [ws [ws' [[Heq [Hws Hws']] Hprio]]].
  specialize (Hprio _ _ _ _ Hsplit0).
  subst content. apply app_inv_head in Heq.
  assert (Hopen : ws = [] /\
                  group1 m (u "---" ++ [nl] ++ body ++ [nl] ++ u "---" ++ [nl] ++ rest)
                  ++ [nl] ++ u "---" ++ ws' ++ [nl]
                  ++ skipn (m_end m)
                       (u "---" ++ [nl] ++ body ++ [nl] ++ u "---" ++ [nl] ++ rest)
                  = body ++ [nl] ++ u "---" ++ [nl] ++ rest).
  { apply (@space_run_before ws _ _ Hws (eq_sym Heq)).
    - destruct body; [congruence|]. exact Hbody.
    - left. destruct body; [congruence | discriminate]. }
  destruct Hopen as [-> Heq1]. clear Heq.
  set (g := group1 m _) in *. set (r := skipn (m_end m) _) in *.
  destruct Hprio as [_ Hprio]. destruct (Hprio eq_refl) as [Hle _].
  assert (Hlen : length g = length body).
  { destruct (Nat.eq_dec (length g) (length body)) as [|Hneq]; [assumption|].
    exfalso. assert (Hlt : length g < length body) by lia.
    destruct (app_eq_shorter _ _ _ _ Heq1 Hlt) as [a [t [Hb Ht]]].
    injection Ht as <- Ht.
    destruct t as [|b t]; [discriminate|]. injection Ht as <- _.
    rewrite Hb, no_hyphen_line_inside in Hlines. discriminate. }
  destruct (app_eq_length _ _ _ _ Heq1 Hlen) as [Hg Htail].
  injection Htail as Htail.
  assert (Hclose : ws' = [] /\ r = rest).
  { apply (@space_run_before ws' r rest Hws' Htail Hrest).
    destruct ws' as [|a ws''].
    - right. simpl in Htail. injection Htail as Htail. exact Htail.
    - left. simpl in Htail. injection Htail as _ Htail. rewrite <- Htail.
      destruct ws''; discriminate. }
  destruct Hclose as [_ Hr].
  assert (Hregion : header_region
                      (u "---" ++ [nl] ++ body ++ [nl] ++ u "---" ++ [nl] ++ rest)
                    = Some (body, rest)).
  { unfold header_region. rewrite Hm. fold g r. rewrite Hg, Hr. reflexivity. }
  split; [exact Hregion|].
  unfold extract_frontmatter. rewrite Hm. cbv zeta. fold g r.
  rewrite Hg, Hr. reflexivity.
Qed.

Lemma header_round_trip_witness :
  header_region (u "---" ++ [nl] ++ u "context: work" ++ [nl] ++ u "---"
                 ++ [nl] ++ u "work note")
  = Some (u "context: work", u "work note").
Proof.
  apply (@header_round_trip flat_load (u "context: work") (u "work note"));
    [discriminate | reflexivity ..].
Defined.

(** ** The configuration cache of the server *)

Lemma py_eq_none_false (v : value) : v <> VNone -> py_eq v VNone = false.
Proof.
  intros H. destruct (py_eq v VNone) eqn:E; [|reflexivity].
  apply py_eq_none_r in E. contradiction.
Qed.

(** Once a configuration other than null has been loaded, every later call
    returns it without looking at the files, whatever they have become. *)
Theorem load_config_cached (w : world) (g g' : globals) (config : value)
    (Hload : load_config w g = (Ret config, g'))
    (Hconfig : config <> VNone) :
  forall w', load_config w' g' = (Ret config, g').
Proof.
  intros w'. unfold load_config in *.
  destruct (py_eq (_config g) VNone) eqn:E; cbn [negb] in Hload.
  - destruct (utils_load_config w _) as [c|e]; [|discriminate].
    injection Hload as -> <-. cbn [_config].
    rewrite (py_eq_none_false Hconfig). reflexivity.
  - injection Hload as <- <-. rewrite E. reflexivity.
Qed.

Lemma load_config_cached_witness :
  load_config no_config_world
    (mk_globals (VDict [(u "vault_path", VStr (u "/vault"))])
                (Some (u "/srv/config.yaml")))
  = (Ret (VDict [(u "vault_path", VStr (u "/vault"))]),
     mk_globals (VDict [(u "vault_path", VStr (u "/vault"))])
                (Some (u "/srv/config.yaml"))).
Proof.
  assert (H : load_config sample_world fresh_globals
              = (Ret (VDict [(u "vault_path", VStr (u "/vault"))]),
                 mk_globals (VDict [(u "vault_path", VStr (u "/vault"))])
                            (Some (u "/srv/config.yaml"))))
    by (vm_compute; reflexivity).
  apply (load_config_cached sample_world fresh_globals H). discriminate.
Defined.

(** A load that fails, or that yields null, caches nothing: the next call
    reads the configuration file again, at the path the failed call
    settled on. *)
Theorem load_config_retry (w : world) (g g' : globals) (r : outcome value)
    (Hload : load_config w g = (r, g'))
    (Hfail : r = Ret VNone \/ exists e, r = Raise e) :
  _config_path g' = Some (config_path_of w g) /\
  forall w', fst (load_config w' g') = utils_load_config w' (config_path_of w g).
Proof.
  unfold load_config, config_path_of in *.
  destruct (py_eq (_config g) VNone) eqn:E; cbn [negb] in Hload.
  - destruct (utils_load_config w _) as [c|e] eqn:Hu.
    + injection Hload as <- <-.
      destruct Hfail as [Hc|[e He]]; [|discriminate]. injection Hc as ->.
      split; [reflexivity|]. intros w'. cbn [_config _config_path py_eq negb].
      destruct (utils_load_config w' _); reflexivity.
    + injection Hload as <- <-. split; [reflexivity|]. intros w'.
      cbn [_config _config_path]. rewrite E. cbn [negb].
      destruct (utils_load_config w' _); reflexivity.
  - injection Hload as <- <-. exfalso.
    destruct Hfail as [Hc|[e He]]; [|discriminate].
    injection Hc as Hc. rewrite Hc in E. discriminate.
Qed.

Lemma load_config_retry_witness :
  fst (load_config sample_world
         (snd (load_config no_config_world fresh_globals)))
  = utils_load_config sample_world (u "/srv/config.yaml").
Proof.
  assert (H : load_config no_config_world fresh_globals
              = (Raise (mk_exn FileNotFoundError
                          (u "Configuration file not found: /srv/config.yaml")),
                 mk_globals VNone (Some (u "/srv/config.yaml"))))
    by (vm_compute; reflexivity).
  rewrite H. cbn [snd].
  exact (proj2 (load_config_retry no_config_world fresh_globals H
                  (or_intror (ex_intro _ _ eq_refl))) sample_world).
Defined.

(** ** fetch_context and fetch_matching_files *)

Lemma aggregate_not_error (w : world) (files : list (path * str)) :
  startswith (u "Error") (concatenate_files w files) = false.
Proof.
  destruct files as [|f files]; [reflexivity|].
  destruct (concatenate_files_head w f files) as [rest ->]. reflexivity.
Qed.

(** [fetch_context] is [fetch_matching_files] with the one-pair filter and
    no tags: the globals afterwards are the same, and so is the text,
    unless something raises, in which case the two messages differ only in
    their prefix. *)
Theorem fetch_context_as_matching_files (w : world) (g : globals)
    (context_type : str) :
  let by_context := fetch_context w g context_type in
  let by_filter :=
    fetch_matching_files w g (Some [(u "context", VStr context_type)])
      None false in
  snd by_context = snd by_filter /\
  (fst by_context = fst by_filter \/
   exists e,
     fst by_context
     = u "Error fetching " ++ context_type ++ u " context: " ++ exn_msg e /\
     fst by_filter = u "Error fetching matching files: " ++ exn_msg e).
Proof.
  cbv zeta. unfold fetch_context, fetch_matching_files.
  destruct (load_config w g) as [[config|e] g']; cbn [bind].
  - change (fetch_matching_files_body w config
              (Some [(u "context", VStr context_type)]) None false)
      with (fetch_context_body w config context_type).
    destruct (fetch_context_body w config context_type) as [text|e];
      cbn [fst snd].
    + split; [reflexivity | left; reflexivity].
    + split; [reflexivity | right; exists e; split; reflexivity].
  - cbn [fst snd]. split; [reflexivity | right; exists e; split; reflexivity].
Qed.

(** The text [fetch_context] returns starts with ["Error"] exactly when it
    is not the aggregate of a scan that returned. *)
Theorem fetch_context_error_iff (w : world) (g : globals)
    (context_type : str) :
  startswith (u "Error") (fst (fetch_context w g context_type)) = false <->
  exists config configured files,
    fst (load_config w g) = Ret config /\
    getitem config (u "vault_path") = Ret (VStr configured) /\
    exists_ w (resolve w (expanduser w configured)) = Ret true /\
    is_dir w (resolve w (expanduser w configured)) = Ret true /\
    snd (find_matching_files w (resolve w (expanduser w configured))
           [(u "context", VStr context_type)] [] false) = Ret files /\
    fst (fetch_context w g context_type) = concatenate_files w files.
Proof.
  unfold fetch_context.
  destruct (load_config w g) as [[config|e] g'] eqn:Hload; cbn [bind fst].
  2:{ split; [discriminate|]. intros [c [p [fs [H _]]]]. discriminate. }
  unfold fetch_context_body.
  destruct (getitem config (u "vault_path")) as [raw|e] eqn:Hget; cbn [bind].
  2:{ split; [discriminate|].
      intros [c [p [fs [H [H2 _]]]]]. injection H as <-. congruence. }
  destruct raw as [| | |configured| |]; cbn [Path bind];
    try (split; [discriminate|];
         intros [c [p [fs [H [H2 _]]]]]; injection H as <-; congruence).
  destruct (exists_ w (resolve w (expanduser w configured)))
    as [[|]|e] eqn:Hex; cbn [bind negb fst].
  2,3: (split; [discriminate|];
        intros [c [p [fs [H [H2 [H3 _]]]]]]; injection H as <-;
        rewrite Hget in H2; injection H2 as <-; congruence).
  destruct (is_dir w (resolve w (expanduser w configured)))
    as [[|]|e] eqn:Hdir; cbn [bind negb fst].
  2,3: (split; [discriminate|];
        intros [c [p [fs [H [H2 [_ [H4 _]]]]]]]; injection H as <-;
        rewrite Hget in H2; injection H2 as <-; congruence).
  destruct (snd (find_matching_files w (resolve w (expanduser w configured))
                   [(u "context", VStr context_type)] [] false))
    as [files|e] eqn:Hfind; cbn [bind fst].
  - split.
    + intros _. exists config, configured, files. repeat split; auto.
    + intros _. apply aggregate_not_error.
  - split; [discriminate|].
    intros [c [p [fs [H [H2 [_ [_ [H5 _]]]]]]]]. injection H as <-.
    rewrite Hget in H2. injection H2 as <-. congruence.
Qed.

(** ** The vault-info resource *)

(** The resource never raises: it returns either a record with the single
    key ["error"], or the four facts about the configured root followed by
    the configured default context (the empty mapping when none is
    configured); the count is the length of the enumeration. *)
Theorem server_vault_info_cases (w : world) (g : globals) :
  let info := fst (server_get_vault_info w g) in
  (exists message, info = [(u "error", VStr message)]) \/
  (exists config configured directory,
     fst (load_config w g) = Ret config /\
     getitem config (u "vault_path") = Ret (VStr configured) /\
     let vault_path := resolve w (expanduser w configured) in
     exists_ w vault_path = Ret true /\
     is_dir w vault_path = Ret directory /\
     info =
     [(u "vault_path", VStr vault_path);
      (u "exists", VBool true);
      (u "is_directory", VBool directory);
      (u "markdown_files_count",
       VInt (Z.of_nat (length (rglob_md w vault_path))));
      (u "default_context",
       match config with
       | VDict d =>
           match dict_lookup (u "default_context") d with
           | Some v => v
           | None => VDict []
           end
       | _ => VDict []
       end)]).
Proof.
  cbv zeta. unfold server_get_vault_info.
  destruct (load_config w g) as [[config|e] g'] eqn:Hload; cbn [bind fst].
  2:{ left. eexists. reflexivity. }
  destruct (getitem config (u "vault_path")) as [raw|e] eqn:Hget; cbn [bind].
  2:{ left. eexists. reflexivity. }
  destruct raw as [| | |configured| |]; cbn [Path bind];
    try (left; eexists; reflexivity).
  unfold get_vault_info.
  destruct (exists_ w (resolve w (expanduser w configured)))
    as [[|]|e] eqn:Hex; cbn [bind negb info_dict].
  2,3: (left; eexists; reflexivity).
  destruct (is_dir w (resolve w (expanduser w configured)))
    as [directory|e] eqn:Hdir; cbn [bind info_dict].
  2:{ left. eexists. reflexivity. }
  right. exists config, configured, directory. split; [reflexivity|].
  split; [exact Hget|]. split; [exact Hex|]. split; [exact Hdir|].
  destruct config as [| | | | |d]; try discriminate.
  reflexivity.
Qed.

Example server_vault_info_sample :
  fst (server_get_vault_info sample_world fresh_globals) =
  [(u "vault_path", VStr (u "/vault")); (u "exists", VBool true);
   (u "is_directory", VBool true); (u "markdown_files_count", VInt 5);
   (u "default_context", VDict [])] /\
  fst (server_get_vault_info no_config_world fresh_globals) =
  [(u "error", VStr (u "Configuration file not found: /srv/config.yaml"))].
Proof. vm_compute. split; reflexivity. Qed.

(** ** The command line: filters of any type *)

Lemma forallb_map (A B : Type) (f : B -> bool) (g : A -> B) (l : list A) :
  forallb f (map g l) = forallb (fun x => f (g x)) l.
Proof. induction l as [|x l IH]; simpl; [reflexivity|]. rewrite IH. reflexivity. Qed.

Lemma existsb_map (A B : Type) (f : B -> bool) (g : A -> B) (l : list A) :
  existsb f (map g l) = existsb (fun x => f (g x)) l.
Proof. induction l as [|x l IH]; simpl; [reflexivity|]. rewrite IH. reflexivity. Qed.

Lemma matches_criteria_any_typed (fm : value) (props : dict)
    (tags : list str) (all : bool) :
  matches_criteria_any fm (VDict props) (VList (map VStr tags)) all =
  matches_criteria fm props tags all.
Proof.
  unfold matches_criteria_any, matches_criteria. cbn [items bind].
  destruct (properties_loop fm props) as [[|]|e]; cbn [bind negb];
    try reflexivity.
  destruct tags as [|t tags]; [reflexivity|].
  cbn [map truthy length Nat.eqb negb].
  destruct (get fm (u "tags") (VList [])) as [file_tags|e]; cbn [bind iterate];
    [|reflexivity].
  change (VStr t :: map VStr tags) with (map VStr (t :: tags)).
  rewrite forallb_map, existsb_map. reflexivity.
Qed.

Lemma scan_loop_with_ext (w : world) (m1 m2 : value -> outcome bool)
    (files : list path) :
  (forall fm, m1 fm = m2 fm) ->
  forall acc printed,
    scan_loop_with w m1 files acc printed = scan_loop_with w m2 files acc printed.
Proof.
  intros Hext. induction files as [|f files IH]; intros acc printed;
    [reflexivity|].
  cbn [scan_loop_with].
  destruct (is_file w f) as [[|]|e0]; [|apply IH|reflexivity].
  assert (Hf : scan_file_with w m1 f = scan_file_with w m2 f).
  { unfold scan_file_with. destruct (read_text w f); cbn [bind]; [|reflexivity].
    destruct (extract_frontmatter (safe_load w) a); cbn [bind]; [|reflexivity].
    rewrite Hext. reflexivity. }
  rewrite Hf. destruct (scan_file_with w m2 f) as [[hit|]|e]; try apply IH.
  destruct (is_read_error e); [apply IH | reflexivity].
Qed.

Lemma scan_loop_as_with (w : world) (props : dict) (tags : list str)
    (all : bool) (files : list path) :
  forall acc printed,
    scan_loop w props tags all files acc printed =
    scan_loop_with w (fun fm => matches_criteria fm props tags all)
      files acc printed.
Proof.
  induction files as [|f files IH]; intros acc printed; [reflexivity|].
  cbn [scan_loop scan_loop_with].
  destruct (is_file w f) as [[|]|e0]; [|apply IH|reflexivity].
  change (scan_file_with w (fun fm => matches_criteria fm props tags all) f)
    with (scan_file w props tags all f).
  destruct (scan_file w props tags all f) as [[hit|]|e]; try apply IH.
  destruct (is_read_error e); [apply IH | reflexivity].
Qed.

Lemma find_matching_files_any_typed (w : world) (vault_path : path)
    (props : dict) (tags : list str) (all : bool) :
  find_matching_files_any w vault_path (VDict props) (VList (map VStr tags)) all
  = find_matching_files w vault_path props tags all.
Proof.
  unfold find_matching_files_any, find_matching_files.
  rewrite scan_loop_as_with.
  rewrite (scan_loop_with_ext w
             (fun fm => matches_criteria_any fm (VDict props)
                          (VList (map VStr tags)) all)
             (fun fm => matches_criteria fm props tags all)).
  - reflexivity.
  - intros fm. apply matches_criteria_any_typed.
Qed.

(** Default tags that the configuration gives as one string are taken
    character by character: in "any" mode a document matches when one of
    its tags is a single character of that string. *)
Theorem default_tags_string_by_character (md props : dict) (s : str)
    (Hs : s <> [])
    (Hprops : properties_loop (VDict md) props = Ret true) :
  exists result,
    matches_criteria_any (VDict md) (VDict props) (VStr s) false = Ret result /\
    (result = true <->
     exists c, In c s /\
               In (VStr [c]) (spec_tag_sequence (dict_lookup (u "tags") md))).
Proof.
  unfold matches_criteria_any. cbn [items bind]. rewrite Hprops.
  cbn [bind negb truthy]. destruct s as [|a s]; [congruence|].
  cbn [length Nat.eqb negb].
  destruct (get_tags_normalized md) as [Hget Hnorm].
  rewrite Hget. cbn [bind iterate]. cbv zeta. rewrite Hnorm.
  eexists. split; [reflexivity|].
  rewrite existsb_map, existsb_exists.
  split; intros [c [Hin H]]; exists c; (split; [exact Hin|]);
    apply py_in_str; exact H.
Qed.

Lemma default_tags_string_by_character_witness :
  matches_criteria_any (VDict [(u "tags", VList [VStr (u "w")])]) (VDict [])
    (VStr (u "work")) false = Ret true.
Proof.
  destruct (@default_tags_string_by_character
              [(u "tags", VList [VStr (u "w")])] [] (u "work"))
    as [result [Hres Hiff]]; [discriminate | reflexivity |].
  rewrite Hres. f_equal. apply Hiff.
  exists 119%N. split; [left; reflexivity | left; reflexivity].
Defined.

(** ** The command line: [--property] *)

Lemma dict_lookup_set_same (key : str) (v : value) (d : dict) :
  dict_lookup key (dict_set key v d) = Some v.
Proof.
  induction d as [|[k x] d IH]; simpl.
  - rewrite str_eqb_refl. reflexivity.
  - destruct (str_eqb key k) eqn:E; simpl; rewrite E; [reflexivity | exact IH].
Qed.

Lemma dict_lookup_set_other (key key' : str) (v : value) (d : dict) :
  key' <> key ->
  dict_lookup key' (dict_set key v d) = dict_lookup key' d.
Proof.
  intros Hne. induction d as [|[k x] d IH]; simpl.
  - destruct (str_eqb key' key) eqn:E; [|reflexivity].
    apply str_eqb_eq in E. contradiction.
  - destruct (str_eqb key k) eqn:E; simpl.
    + apply str_eqb_eq in E. subst k.
      destruct (str_eqb key' key) eqn:E'; [|reflexivity].
      apply str_eqb_eq in E'. contradiction.
    + destruct (str_eqb key' k); [reflexivity | exact IH].
Qed.

Lemma dict_set_keys (key : str) (v : value) (d : dict) :
  (forall k, In k (map fst (dict_set key v d)) <-> k = key \/ In k (map fst d))
  /\ (NoDup (map fst d) -> NoDup (map fst (dict_set key v d))).
Proof.
  induction d as [|[k x] d [IHin IHnd]]; simpl.
  - split.
    + intros k. split; [intros [<-|[]]; auto | intros [->|[]]; auto].
    + intros _. repeat constructor. intros [].
  - destruct (str_eqb key k) eqn:E; simpl.
    + apply str_eqb_eq in E. subst k. split; [|auto].
      intros k. split; [intros [<-|H]; auto | intros [->|[<-|H]]; auto].
    + split.
      * intros k0. rewrite IHin. split.
        -- intros [<-|[->|H]]; auto.
        -- intros [->|[<-|H]]; auto.
      * intros Hnd. inversion Hnd as [|? ? Hnotin Hnd']; subst.
        constructor; [|apply IHnd; exact Hnd'].
        rewrite IHin. intros [->|H]; [|contradiction].
        rewrite str_eqb_refl in E. discriminate.
Qed.

Lemma parse_properties_invariant (props : list str) :
  forall properties printed,
    NoDup (map fst properties) ->
    Forall (fun kv => exists s, snd kv = VStr s) properties ->
    NoDup (map fst (fst (parse_properties props properties printed))) /\
    Forall (fun kv => exists s, snd kv = VStr s)
           (fst (parse_properties props properties printed)).
Proof.
  induction props as [|prop props IH]; intros properties printed Hnd Hall.
  - simpl. auto.
  - cbn [parse_properties]. destruct (split_eq prop) as [[key value]|].
    + apply IH.
      * apply dict_set_keys. exact Hnd.
      * clear IH Hnd. induction properties as [|[k x] d IHd]; simpl.
        -- repeat constructor. simpl. eauto.
        -- inversion Hall as [|? ? Hx Hd]; subst.
           destruct (str_eqb (strip key) k); constructor; simpl; eauto.
    + apply IH; assumption.
Qed.

(** The mapping built from the [--property] flags has pairwise distinct
    keys and holds strings only. *)
Theorem parse_properties_strings (props : list str) :
  NoDup (map fst (fst (parse_properties props [] []))) /\
  Forall (fun kv => exists s, snd kv = VStr s)
         (fst (parse_properties props [] [])).
Proof.
  apply parse_properties_invariant; constructor.
Qed.

Lemma parse_properties_app (props more : list str) :
  forall properties printed,
    parse_properties (props ++ more) properties printed =
    parse_properties more
      (fst (parse_properties props properties printed))
      (snd (parse_properties props properties printed)).
Proof.
  induction props as [|prop props IH]; intros properties printed;
    [reflexivity|].
  cbn [app parse_properties].
  destruct (split_eq prop) as [[key value]|]; apply IH.
Qed.

(** A [--property] flag given last decides the value of its key, with the
    whitespace around key and value removed; a flag without an equals sign
    changes nothing and prints one warning. *)
Theorem parse_properties_last_wins (props : list str) (prop : str) :
  (forall key value,
     split_eq prop = Some (key, value) ->
     dict_lookup (strip key) (fst (parse_properties (props ++ [prop]) [] []))
     = Some (VStr (strip value)) /\
     snd (parse_properties (props ++ [prop]) [] [])
     = snd (parse_properties props [] [])) /\
  (split_eq prop = None ->
   fst (parse_properties (props ++ [prop]) [] [])
   = fst (parse_properties props [] []) /\
   snd (parse_properties (props ++ [prop]) [] [])
   = snd (parse_properties props [] [])
     ++ [u "Warning: Invalid property format '" ++ prop
         ++ u "', expected key=value"]).
Proof.
  rewrite parse_properties_app. cbn [parse_properties]. split.
  - intros key value ->. cbn [fst snd]. split; [|reflexivity].
    apply dict_lookup_set_same.
  - intros ->. cbn [fst snd]. split; reflexivity.
Qed.

Lemma parse_properties_last_wins_witness :
  dict_lookup (u "context")
    (fst (parse_properties ([u "context=home"] ++ [u " context = work "]) [] []))
  = Some (VStr (u "work")).
Proof.
  exact (proj1 (proj1 (parse_properties_last_wins [u "context=home"]
                         (u " context = work "))
                  (u " context ") (u " work ") eq_refl)).
Defined.

(** ** The command line: [main] *)

Lemma last_app_cons (A : Type) (l : list A) (x : A) (m : list A) (d : A) :
  last (l ++ x :: m) d = last (x :: m) d.
Proof.
  induction l as [|a l IH]; [reflexivity|].
  change ((a :: l) ++ x :: m) with (a :: (l ++ x :: m)).
  cbn [last]. destruct (l ++ x :: m) eqn:E; [destruct l; discriminate|].
  exact IH.
Qed.

Lemma aggregate_not_error_string (w : world) (files : list (path * str)) :
  is_error_string (concatenate_files w files) = false.
Proof.
  destruct files as [|f files]; [reflexivity|].
  destruct (concatenate_files_head w f files) as [rest ->]. reflexivity.
Qed.

Lemma last_Forall (A : Type) (P : A -> Prop) (l : list A) :
  forall x d, Forall P (x :: l) -> P (last (x :: l) d).
Proof.
  induction l as [|y l IH]; intros x d H.
  - inversion H. assumption.
  - inversion H as [|? ? _ Hl]; subst. cbn [last]. apply (IH y d Hl).
Qed.

Lemma main_output_last (w : world) (args : cli_args)
    (files : list (path * str)) (before : list str) :
  is_error_string (last_printed (before ++ main_output w args files)) = false.
Proof.
  unfold last_printed, main_output. destruct (arg_dry_run args).
  - rewrite last_app_cons.
    apply (@last_Forall _ (fun s => is_error_string s = false)).
    constructor; [reflexivity|].
    apply Forall_forall. intros s Hin. apply in_map_iff in Hin.
    destruct Hin as [f [<- _]]. reflexivity.
  - rewrite last_app_cons. apply aggregate_not_error_string.
Qed.

(** [main] returns 0 or 1, and it returns 1 exactly when what it printed
    last starts with ["Error: "]. *)
Theorem main_exit_code (w : world) (args : cli_args) :
  (snd (main w args) = 0 \/ snd (main w args) = 1) /\
  (snd (main w args) = 1 <->
   is_error_string (last_printed (fst (main w args))) = true).
Proof.
  unfold main, main_try.
  assert (Herr : forall printed e,
             is_error_string (last_printed (printed ++ [u "Error: " ++ exn_msg e]))
             = true).
  { intros printed e. unfold last_printed. rewrite last_app_cons. reflexivity. }
  destruct (utils_load_config_opt w (arg_config args)) as [config|e].
  2:{ cbn [fst snd]. split; [right; reflexivity|].
      split; [intros _; apply Herr | reflexivity]. }
  destruct (main_vault_path w args config) as [vault_path|e].
  2:{ cbn [fst snd]. split; [right; reflexivity|].
      split; [intros _; apply Herr | reflexivity]. }
  destruct (exists_ w vault_path) as [[|]|e] eqn:Hex.
  2:{ cbn [fst snd]. split; [right; reflexivity|]. split; reflexivity. }
  2:{ cbn [fst snd]. split; [right; reflexivity|].
      split; [intros _; apply Herr | reflexivity]. }
  destruct (arg_info args).
  { unfold get_vault_info. rewrite Hex. cbn [bind negb].
    destruct (is_dir w vault_path) as [directory|e]; cbn [bind fst snd].
    - split; [left; reflexivity|]. split; discriminate.
    - split; [right; reflexivity|].
      split; [intros _; apply Herr | reflexivity]. }
  destruct (main_criteria args config) as [printed [[properties tags]|e]].
  2:{ cbn [fst snd]. split; [right; reflexivity|].
      split; [intros _; apply Herr | reflexivity]. }
  destruct (find_matching_files_any w vault_path properties tags
              (arg_all_tags args)) as [warned [files|e]].
  2:{ cbn [fst snd]. split; [right; reflexivity|].
      split; [intros _; apply Herr | reflexivity]. }
  cbn [fst snd]. split; [left; reflexivity|].
  rewrite app_assoc, main_output_last. split; discriminate.
Qed.

(** A dry run exits like the real run; when the real run prints the
    aggregate of some files, the dry run prints, after the same warnings,
    the count line and the paths of those very files; when the real run
    fails, the dry run prints the same lines. *)
Theorem main_dry_run (w : world) (vault config : option path)
    (property tag : option (list str)) (all use_default : bool) :
  let run := main w (mk_args vault config property tag all use_default false false) in
  let dry := main w (mk_args vault config property tag all use_default false true) in
  snd run = snd dry /\
  (snd run = 1 -> fst run = fst dry) /\
  (snd run = 0 ->
   exists warned files,
     fst run = warned ++ [concatenate_files w files] /\
     fst dry = warned
       ++ (u "Found " ++ str_of_nat (length files) ++ u " matching files:")
       :: map (fun f => u "  " ++ fst f) files).
Proof.
  cbv zeta. unfold main, main_try.
  cbn [arg_vault arg_config arg_info arg_all_tags].
  destruct (utils_load_config_opt w config) as [cfg|e].
  2:{ cbn [fst snd]. repeat split; discriminate. }
  change (main_vault_path w (mk_args vault config property tag all use_default false true) cfg)
    with (main_vault_path w (mk_args vault config property tag all use_default false false) cfg).
  destruct (main_vault_path w _ cfg) as [vault_path|e].
  2:{ cbn [fst snd]. repeat split; discriminate. }
  destruct (exists_ w vault_path) as [[|]|e].
  2,3: (cbn [fst snd]; repeat split; discriminate).
  change (main_criteria (mk_args vault config property tag all use_default false true) cfg)
    with (main_criteria (mk_args vault config property tag all use_default false false) cfg).
  destruct (main_criteria _ cfg) as [printed [[properties tags]|e]].
  2:{ cbn [fst snd]. repeat split; discriminate. }
  destruct (find_matching_files_any w vault_path properties tags all)
    as [warned [files|e]].
  2:{ cbn [fst snd]. repeat split; discriminate. }
  cbn [fst snd]. split; [reflexivity|]. split; [discriminate|].
  intros _. exists (printed ++ warned), files.
  unfold main_output. cbn [arg_dry_run]. rewrite !app_assoc. split; reflexivity.
Qed.

(** [--info] comes first: with it, the criteria flags, [--use-default] and
    [--dry-run] change nothing. *)
Theorem main_info_first (w : world) (vault config : option path)
    (property property' tag tag' : option (list str))
    (all all' use_default use_default' dry dry' : bool) :
  main w (mk_args vault config property tag all use_default true dry) =
  main w (mk_args vault config property' tag' all' use_default' true dry').
Proof.
  unfold main, main_try. cbn [arg_config arg_info].
  destruct (utils_load_config_opt w config) as [cfg|e]; [|reflexivity].
  change (main_vault_path w (mk_args vault config property' tag' all' use_default' true dry') cfg)
    with (main_vault_path w (mk_args vault config property tag all use_default true dry) cfg).
  destruct (main_vault_path w _ cfg) as [vault_path|e]; reflexivity.
Qed.

(** With [--use-default] the [--property] and [--tag] flags are ignored. *)
Theorem main_use_default_ignores_flags (w : world) (vault config : option path)
    (property property' tag tag' : option (list str))
    (all info dry : bool) :
  main w (mk_args vault config property tag all true info dry) =
  main w (mk_args vault config property' tag' all true info dry).
Proof.
  unfold main, main_try. cbn [arg_config arg_info arg_all_tags].
  destruct (utils_load_config_opt w config) as [cfg|e]; [|reflexivity].
  change (main_vault_path w (mk_args vault config property' tag' all true info dry) cfg)
    with (main_vault_path w (mk_args vault config property tag all true info dry) cfg).
  destruct (main_vault_path w _ cfg) as [vault_path|e]; [|reflexivity].
  destruct (exists_ w vault_path) as [[|]|e]; [|reflexivity|reflexivity].
  destruct info; [reflexivity|].
  change (main_criteria (mk_args vault config property' tag' all true false dry) cfg)
    with (main_criteria (mk_args vault config property tag all true false dry) cfg).
  destruct (main_criteria _ cfg) as [printed [[properties tags]|e]];
    [|reflexivity].
  destruct (find_matching_files_any w vault_path properties tags all)
    as [warned [files|e]]; reflexivity.
Qed.

(** The command line with the one flag [--property context=<type>] prints,
    after the warnings of the scan, the text [fetch_context] returns for
    that type, whenever that text is not an error message: both read the
    same configuration file and run the same scan. *)
Theorem main_prints_fetch_context (w : world) (context_type : str)
    (Hstrip : strip context_type = context_type)
    (Hok : startswith (u "Error")
             (fst (fetch_context w fresh_globals context_type)) = false) :
  exists warned,
    main w (mk_args None (Some (script_dir w ++ u "/config.yaml"))
              (Some [u "context=" ++ context_type]) None false false false false)
    = (warned ++ [fst (fetch_context w fresh_globals context_type)], 0).
Proof.
  unfold main, main_try, utils_load_config_opt.
  cbn [arg_config arg_info arg_all_tags].
  unfold fetch_context, load_config in Hok |- *.
  cbn [fresh_globals _config _config_path py_eq negb] in Hok |- *.
  destruct (utils_load_config w (script_dir w ++ u "/config.yaml")) as [cfg|e];
    cbn [bind fst] in Hok |- *; [|discriminate].
  unfold fetch_context_body in Hok |- *. unfold main_vault_path. cbn [arg_vault].
  destruct (getitem cfg (u "vault_path")) as [raw|e]; cbn [bind fst] in Hok |- *;
    [|discriminate].
  destruct (Path raw) as [p|e]; cbn [bind fst] in Hok |- *; [|discriminate].
  destruct (exists_ w (resolve w (expanduser w p))) as [[|]|e];
    cbn [bind negb fst] in Hok |- *; [|discriminate|discriminate].
  destruct (is_dir w (resolve w (expanduser w p))) as [[|]|e];
    cbn [bind negb fst] in Hok |- *; [|discriminate|discriminate].
  unfold main_criteria. cbn [arg_use_default arg_property arg_tag or_empty].
  match goal with
  | |- context [parse_properties ?l ?a ?b] =>
      assert (Hcrit : parse_properties l a b
                      = ([(u "context", VStr context_type)], []));
        [ cbn [parse_properties];
          assert (Hs : split_eq (u "context=" ++ context_type)
                       = Some (u "context", context_type)) by reflexivity;
          rewrite Hs, Hstrip; reflexivity
        | rewrite Hcrit ]
  end.
  match goal with
  | |- context [find_matching_files_any ?a ?b ?c ?d ?e] =>
      replace (find_matching_files_any a b c d e)
        with (find_matching_files w (resolve w (expanduser w p))
                [(u "context", VStr context_type)] [] false)
        by (symmetry;
            apply (find_matching_files_any_typed w (resolve w (expanduser w p))
                     [(u "context", VStr context_type)] [] false))
  end.
  destruct (find_matching_files w (resolve w (expanduser w p))
              [(u "context", VStr context_type)] [] false)
    as [warned [files|e]]; cbn [snd bind fst] in Hok |- *; [|discriminate].
  exists warned. unfold main_output. cbn [arg_dry_run app]. reflexivity.
Qed.

Lemma main_prints_fetch_context_witness :
  exists warned,
    main sample_world
      (mk_args None (Some (script_dir sample_world ++ u "/config.yaml"))
         (Some [u "context=" ++ u "work"]) None false false false false)
    = (warned ++ [fst (fetch_context sample_world fresh_globals (u "work"))], 0).
Proof.
  assert (Hstrip : strip (u "work") = u "work") by (vm_compute; reflexivity).
  assert (Hok : startswith (u "Error")
                  (fst (fetch_context sample_world fresh_globals (u "work")))
                = false) by (vm_compute; reflexivity).
  exact (main_prints_fetch_context sample_world Hstrip Hok).
Defined.

Example main_dry_run_sample :
  main sample_world
    (mk_args (Some (u "/vault")) (Some (u "/srv/config.yaml"))
       (Some [u "nonsense"]) (Some [u "urgent"]) false false false true)
  = ([u "Warning: Invalid property format 'nonsense', expected key=value";
      u "Warning: Could not read /vault/locked.md: Permission denied";
      u "Found 1 matching files:";
      u "  /vault/c.md"], 0) /\
  main sample_world
    (mk_args (Some (u "/vault")) None None None false false true false)
  = ([u "Error: Configuration file not found: config.yaml"], 1) /\
  main sample_world
    (mk_args None (Some (u "/srv/config.yaml")) None None false false true false)
  = ([u "Vault: /vault"; u "Markdown files: 5"], 0).
Proof. vm_compute. repeat split. Qed.
